(** * ArviZ low-level converters: dimension and coordinate inference

    A shallow embedding of [arviz/data/base.py]: [generate_dims_coords],
    [numpy_to_data_array], [dict_to_dataset] and [make_attrs], together with
    the properties the specification states about them, and then the
    decorator [requires] and the helpers on inference data, with further
    properties read off the code.

    Python dictionaries whose iteration order is not observed are finite maps
    ([gmap]); the [data] dictionary of [dict_to_dataset], whose order is
    observed, is an association list.  Warnings are collected in a log that
    every computation returns next to its result; exceptions are values of
    [error]. *)

From Stdlib Require Import Ascii.
From stdpp Require Import gmap strings list fin_maps pretty.

Open Scope string_scope.
Open Scope list_scope.
Open Scope nat_scope.

(** ** Values *)

(** A coordinate label: [utils.arange] produces integers, callers may pass
    text. *)
Inductive label :=
| LInt (z : Z)
| LStr (s : string).

(** [CoordSpec = Dict[str, List[Any]]]. *)
Abbreviation CoordSpec := (gmap string (list label)).

(** A [dims] list as callers pass it: an entry is a name or [None]. *)
Abbreviation DimList := (list (option string)).

(** The array itself: its shape and its entries in row-major order.  None of
    the functions below looks at the entries. *)
Record ndarray (A : Type) := mk_ndarray {
  nd_shape : list nat;
  nd_data : list A
}.
Arguments mk_ndarray {A} _ _.
Arguments nd_shape {A} _.
Arguments nd_data {A} _.

(** ** Exceptions and warnings *)

Inductive error :=
| IndexError                       (* list index out of range *)
| TypeError                        (* an object of another kind than expected *)
| ValueError                       (* not enough values to unpack *)
| KeyError (key : option string)   (* [coords[key]] on a missing key *)
| DimsRankError                    (* names and axes differ in number *)
| CoordinateLengthError.           (* a coordinate does not fit its axis *)

Inductive result (A : Type) :=
| Ok (a : A)
| Err (e : error).
Arguments Ok {A} _.
Arguments Err {A} _.

(** Both warnings of the module are [SyntaxWarning]s; the constructor
    arguments are the values formatted into the message. *)
Inductive warning :=
| MoreDimsThanShape (var_name : string) (dims_len shape_len : nat)
                    (defaults : string)
| MoreChainsThanDraws (n_chains n_samples : nat).

(** A computation emits warnings and then returns or raises. *)
Definition M (A : Type) : Type := list warning * result A.

Definition ret {A} (a : A) : M A := ([], Ok a).
Definition raise {A} (e : error) : M A := ([], Err e).
Definition warn (w : warning) : M unit := ([w], Ok tt).
Definition lift {A} (r : result A) : M A := ([], r).

Definition bind {A B} (m : M A) (f : A → M B) : M B :=
  match m with
  | (ws, Ok a) => let '(ws', r) := f a in ((ws ++ ws')%list, r)
  | (ws, Err e) => (ws, Err e)
  end.

Definition rbind {A B} (r : result A) (f : A → result B) : result B :=
  match r with
  | Ok a => f a
  | Err e => Err e
  end.

Global Instance M_ret : MRet M := @ret.
Global Instance M_bind : MBind M := λ A B f m, bind m f.
Global Instance result_ret : MRet result := @Ok.
Global Instance result_bind : MBind result := λ A B f r, rbind r f.

Definition warnings {A} (m : M A) : list warning := m.1.
Definition outcome {A} (m : M A) : result A := m.2.

(** ** [utils] *)

(** Modelled from the spec: [utils.arange] is not among the sources; the
    default coordinate of an axis of length [dim_len] is the integer sequence
    0, 1, ..., dim_len-1. *)
Definition arange (n : nat) : list label :=
  (λ i, LInt (Z.of_nat i)) <$> seq 0 n.

(** Modelled from the spec: [utils.two_de] is not among the sources; a rank-1
    array is a single chain and gets a leading axis of size 1, an array of
    rank 2 or more is left as it is.  The spec takes arrays of rank 1 at
    least; a rank-0 array is left as it is too. *)
Definition two_de {A} (ary : ndarray A) : ndarray A :=
  match nd_shape ary with
  | [n] => mk_ndarray [1; n] (nd_data ary)
  | _ => ary
  end.

(** ** [generate_dims_coords] *)

(** ["{var_name}_dim_{idx}".format(var_name=var_name, idx=idx)] *)
Definition auto_dim_name (var_name : string) (idx : nat) : string :=
  var_name +:+ "_dim_" +:+ pretty idx.

(** [dim not in default_dims]; a [None] entry is in no list of names. *)
Definition not_default (default_dims : list string) (dim : option string) : bool :=
  bool_decide (dim ∉ (Some <$> default_dims)).

(** [",".join(default_dims) + ", "] *)
Definition defaults_text (default_dims : list string) : string :=
  String.concat "," default_dims +:+ ", ".

(** [key in coords] *)
Definition has_key (coords : CoordSpec) (key : string) : bool :=
  bool_decide (is_Some (coords !! key)).

(** One turn of the loop over [enumerate(shape)].  The assignment
    [dims[idx] = dim_name] is made when [len(dims) < idx + 1] is false, so it
    is in range.  After the first [if] the entry [dims[idx]] is a name: the
    two other cases of the final [match] make the step total, and
    [axes_loop_ok] shows that the loop never takes them. *)
Definition axis_step (var_name : string) (idx dim_len : nat)
    (st : DimList * CoordSpec) : result (DimList * CoordSpec) :=
  let '(dims, coords) := st in
  let dims :=
    if (length dims <? idx + 1) || bool_decide (dims !! idx = Some None) then
      let dim_name := auto_dim_name var_name idx in
      if length dims <? idx + 1 then (dims ++ [Some dim_name])%list
      else <[idx := Some dim_name]> dims
    else dims in
  match dims !! idx with
  | Some (Some dim_name) =>
      Ok (dims, if has_key coords dim_name then coords
                else <[dim_name := arange dim_len]> coords)
  | Some None => Err (KeyError None)
  | None => Err IndexError
  end.

Arguments axis_step : simpl never.

Fixpoint axes_loop (var_name : string) (idx : nat) (shape : list nat)
    (st : DimList * CoordSpec) : result (DimList * CoordSpec) :=
  match shape with
  | [] => Ok st
  | dim_len :: shape' =>
      st' ← axis_step var_name idx dim_len st;
      axes_loop var_name (S idx) shape' st'
  end.

(** The dictionary comprehension that closes the function. *)
Definition used_coords (dims : DimList) (coords : CoordSpec) : CoordSpec :=
  filter (λ kv, Some kv.1 ∈ dims) coords.

(** The number that is compared with [len(shape)]. *)
Definition extra_dims (default_dims : list string) (dims : DimList) : nat :=
  length (List.filter (not_default default_dims) dims).

Definition generate_dims_coords (shape : list nat) (var_name : string)
    (dims : option DimList) (coords : option CoordSpec)
    (default_dims : option (list string)) : M (DimList * CoordSpec) :=
  let default_dims := default [] default_dims in
  let dims := default [] dims in
  (if length shape <? extra_dims default_dims dims then
     warn (MoreDimsThanShape var_name (length dims) (length shape)
                             (defaults_text default_dims))
   else ret tt) ;;
  let coords := default ∅ coords in
  (* deepcopy: the values here are immutable; Heap below has the copies *)
  '(dims, coords) ← lift (axes_loop var_name 0 shape (dims, coords));
  ret (dims, used_coords dims coords).

(** ** [numpy_to_data_array] *)

Record LabeledArray (A : Type) := mk_LabeledArray {
  la_values : ndarray A;
  la_dims : list string;
  la_coords : CoordSpec
}.
Arguments mk_LabeledArray {A} _ _ _.
Arguments la_values {A} _.
Arguments la_dims {A} _.
Arguments la_coords {A} _.

(** The coordinate of [name], when there is one, has [axis_len] entries. *)
Definition fits (coords : CoordSpec) (name : string) (axis_len : nat) : bool :=
  match coords !! name with
  | Some c => bool_decide (length c = axis_len)
  | None => true
  end.

(** Modelled from the spec: [xr.DataArray], the labeled-array construction
    primitive, belongs to a library outside the repository.  It builds a
    labeled array whose list of names is as long as the array's rank, and
    fails with CoordinateLengthError when a coordinate sequence's length is
    not the length of the axis its dimension indexes.  The spec names no
    error for a list of names of another length than the rank:
    [DimsRankError] stands for it. *)
Definition DataArray {A} (ary : ndarray A) (coords : CoordSpec)
    (dims : list string) : result (LabeledArray A) :=
  if bool_decide (length dims = length (nd_shape ary)) then
    if forallb (λ p, fits coords p.1 p.2) (zip dims (nd_shape ary)) then
      Ok (mk_LabeledArray ary dims coords)
    else Err CoordinateLengthError
  else Err DimsRankError.

(** [if name not in dims: dims = [name] + dims] *)
Definition prepend_missing (name : string) (dims : DimList) : DimList :=
  if bool_decide (Some name ∈ dims) then dims else Some name :: dims.

(** The two [if]s on ["draw"] and ["chain"], in the order of the code. *)
Definition normalize_dims (dims : DimList) : DimList :=
  prepend_missing "chain" (prepend_missing "draw" dims).

(** [if name not in coords: coords[name] = utils.arange(n)] *)
Definition default_coord (name : string) (n : nat) (coords : CoordSpec) : CoordSpec :=
  if has_key coords name then coords else <[name := arange n]> coords.

(** [coords[key] for key in dims], in the order of [dims]; the first key
    without a coordinate raises. *)
Fixpoint index_coords (coords : CoordSpec) (dims : DimList)
    : result (list (string * list label)) :=
  match dims with
  | [] => Ok []
  | key :: dims' =>
      match key with
      | Some name =>
          match coords !! name with
          | Some c => items ← index_coords coords dims'; Ok ((name, c) :: items)
          | None => Err (KeyError key)
          end
      | None => Err (KeyError None)
      end
  end.

(** The dictionary a comprehension builds from its items: a later item
    replaces an earlier one of the same key. *)
Definition dict_of_items (items : list (string * list label)) : CoordSpec :=
  foldl (λ d kv, <[kv.1 := kv.2]> d) ∅ items.

Definition numpy_to_data_array {A} (ary : ndarray A) (var_name : string)
    (coords : option CoordSpec) (dims : option DimList) : M (LabeledArray A) :=
  let default_dims := ["chain"; "draw"] in
  let ary := two_de ary in
  match nd_shape ary with
  | n_chains :: n_samples :: shape =>
      (if n_samples <? n_chains then
         warn (MoreChainsThanDraws n_chains n_samples)
       else ret tt) ;;
      '(dims, coords) ←
        generate_dims_coords shape var_name dims coords (Some default_dims);
      let dims := normalize_dims dims in
      let coords := default_coord "chain" n_chains coords in
      let coords := default_coord "draw" n_samples coords in
      items ← lift (index_coords coords dims);
      lift (DataArray ary (dict_of_items items) items.*1)
  | _ => raise ValueError
  end.

(** The default of the keyword argument [var_name]. *)
Definition default_var_name : string := "data".

(** ** [make_attrs] *)

(** A JSON-serializable scalar. *)
Inductive attr :=
| AStr (s : string)
| AInt (z : Z)
| ABool (b : bool).

(** What [make_attrs] reads of a library module: [__name__], and
    [__version__] when the module has it. *)
Record library := mk_library {
  lib_name : string;
  lib_version : option string
}.

(** What [make_attrs] reads of its surroundings: the clock, as
    [datetime.datetime.utcnow().isoformat()], and the installed
    distributions, [None] standing for [DistributionNotFound]. *)
Record environment := mk_environment {
  utcnow_isoformat : string;
  get_distribution : string → option string
}.

Definition make_attrs (env : environment) (attrs : option (gmap string attr))
    (library : option library) : gmap string attr :=
  let default_attrs : gmap string attr :=
    {[ "created_at" := AStr (utcnow_isoformat env) ]} in
  let default_attrs :=
    match library with
    | Some lib =>
        let library_name := lib_name lib in
        let default_attrs :=
          <["inference_library" := AStr library_name]> default_attrs in
        match get_distribution env library_name with
        | Some version =>
            <["inference_library_version" := AStr version]> default_attrs
        | None =>
            match lib_version lib with
            | Some version =>
                <["inference_library_version" := AStr version]> default_attrs
            | None => default_attrs
            end
        end
    | None => default_attrs
    end in
  match attrs with
  | Some attrs => attrs ∪ default_attrs   (* default_attrs.update(attrs) *)
  | None => default_attrs
  end.

(** ** [dict_to_dataset] *)

(** Modelled from the spec: [xr.Dataset] belongs to a library outside the
    repository; a labeled dataset is the mapping from variable names to
    labeled arrays, in insertion order, with an attribute record, and the
    construction checks nothing. *)
Record Dataset (A : Type) := mk_Dataset {
  data_vars : list (string * LabeledArray A);
  ds_attrs : gmap string attr
}.
Arguments mk_Dataset {A} _ _.
Arguments data_vars {A} _.
Arguments ds_attrs {A} _.

(** [d[key] = v] on an insertion-ordered dictionary. *)
Fixpoint setitem {V} (key : string) (v : V) (d : list (string * V))
    : list (string * V) :=
  match d with
  | [] => [(key, v)]
  | (k, v') :: d' =>
      if bool_decide (k = key) then (k, v) :: d' else (k, v') :: setitem key v d'
  end.

(** The loop over [data.items()]. *)
Fixpoint label_items {A} (items : list (string * ndarray A))
    (coords : option CoordSpec) (dims : gmap string DimList)
    (acc : list (string * LabeledArray A)) : M (list (string * LabeledArray A)) :=
  match items with
  | [] => ret acc
  | (key, values) :: items' =>
      la ← numpy_to_data_array values key coords (dims !! key);
      label_items items' coords dims (setitem key la acc)
  end.

Definition dict_to_dataset {A} (env : environment)
    (data : list (string * ndarray A)) (attrs : option (gmap string attr))
    (library : option library) (coords : option CoordSpec)
    (dims : option (gmap string DimList)) : M (Dataset A) :=
  let dims := default ∅ dims in
  vars ← label_items data coords dims [];
  ret (mk_Dataset vars (make_attrs env attrs library)).

(** ** The same function over a store of mutable objects

    [generate_dims_coords] appends to [dims], assigns to [dims[idx]] and to
    [coords[dim_name]].  Here lists and dictionaries live in a store and are
    passed by reference, so that an update through one reference is seen
    through every other one. *)
Module Heap.

Definition loc := nat.

Inductive object :=
| ListObj (l : DimList)
| DictObj (d : CoordSpec).

Record state := mk_state {
  objects : gmap loc object;
  emitted : list warning
}.

Definition ST (A : Type) : Type := state → result A * state.

Global Instance ST_ret : MRet ST := λ A a s, (Ok a, s).
Global Instance ST_bind : MBind ST := λ A B f m s,
  match m s with
  | (Ok a, s') => f a s'
  | (Err e, s') => (Err e, s')
  end.

Definition throw {A} (e : error) : ST A := λ s, (Err e, s).

Definition warn (w : warning) : ST unit := λ s,
  (Ok tt, mk_state (objects s) (emitted s ++ [w])).

(** A new object gets a reference that no object of the store has. *)
Definition alloc (o : object) : ST loc := λ s,
  let r := fresh (dom (objects s)) in
  (Ok r, mk_state (<[r := o]> (objects s)) (emitted s)).

(** References are typed in Python; a reference to nothing or to an object
    of the other kind has no counterpart there. *)
Definition read_list (r : loc) : ST DimList := λ s,
  match objects s !! r with
  | Some (ListObj l) => (Ok l, s)
  | _ => (Err TypeError, s)
  end.

Definition read_dict (r : loc) : ST CoordSpec := λ s,
  match objects s !! r with
  | Some (DictObj d) => (Ok d, s)
  | _ => (Err TypeError, s)
  end.

Definition write (r : loc) (o : object) : ST unit := λ s,
  (Ok tt, mk_state (<[r := o]> (objects s)) (emitted s)).

(** [len(dims)] *)
Definition list_len (r : loc) : ST nat :=
  l ← read_list r; mret (length l).

(** [dims[idx]] *)
Definition list_getitem (r : loc) (idx : nat) : ST (option string) :=
  l ← read_list r;
  match l !! idx with
  | Some x => mret x
  | None => throw IndexError
  end.

(** [dims.append(x)] *)
Definition list_append (r : loc) (x : option string) : ST unit :=
  l ← read_list r; write r (ListObj (l ++ [x])).

(** [dims[idx] = x] *)
Definition list_setitem (r : loc) (idx : nat) (x : option string) : ST unit :=
  l ← read_list r;
  if idx <? length l then write r (ListObj (<[idx := x]> l))
  else throw IndexError.

(** [key in coords] *)
Definition dict_contains (r : loc) (key : string) : ST bool :=
  d ← read_dict r; mret (has_key d key).

(** [coords[key] = c] *)
Definition dict_setitem (r : loc) (key : string) (c : list label) : ST unit :=
  d ← read_dict r; write r (DictObj (<[key := c]> d)).

(** [deepcopy(x)]: a new object with the same contents.  Names and
    coordinate sequences are values here, so the copy shares nothing with
    the original. *)
Definition deepcopy (r : loc) : ST loc := λ s,
  match objects s !! r with
  | Some o => alloc o s
  | None => (Err TypeError, s)
  end.

Definition axis_step (var_name : string) (idx dim_len : nat)
    (dims coords : loc) : ST unit :=
  n ← list_len dims;
  unnamed ← (if n <? idx + 1 then mret true
             else x ← list_getitem dims idx; mret (bool_decide (x = None)));
  (if unnamed : bool then
     let dim_name := auto_dim_name var_name idx in
     n ← list_len dims;
     if n <? idx + 1 then list_append dims (Some dim_name)
     else list_setitem dims idx (Some dim_name)
   else mret tt) ;;
  dim_name ← list_getitem dims idx;
  match dim_name with
  | Some dim_name =>
      known ← dict_contains coords dim_name;
      if known : bool then mret tt
      else dict_setitem coords dim_name (arange dim_len)
  | None => throw (KeyError None)
  end.

Fixpoint axes_loop (var_name : string) (idx : nat) (shape : list nat)
    (dims coords : loc) : ST unit :=
  match shape with
  | [] => mret tt
  | dim_len :: shape' =>
      axis_step var_name idx dim_len dims coords ;;
      axes_loop var_name (S idx) shape' dims coords
  end.

Definition generate_dims_coords (shape : list nat) (var_name : string)
    (dims coords : option loc) (default_dims : option (list string))
    : ST (loc * loc) :=
  let default_dims := default [] default_dims in
  dims ← match dims with Some r => mret r | None => alloc (ListObj []) end;
  dv ← read_list dims;
  (if length shape <? extra_dims default_dims dv then
     warn (MoreDimsThanShape var_name (length dv) (length shape)
                             (defaults_text default_dims))
   else mret tt) ;;
  coords ← match coords with Some r => mret r | None => alloc (DictObj ∅) end;
  coords ← deepcopy coords;
  dims ← deepcopy dims;
  axes_loop var_name 0 shape dims coords ;;
  dv ← read_list dims;
  cv ← read_dict coords;
  coords ← alloc (DictObj (used_coords dv cv));
  mret (dims, coords).

End Heap.

(** ** Closed forms of the loop *)

(** The name of axis [idx] once the loop has passed it: the caller's, or the
    generated one where the caller gave none. *)
Definition dim_name_at (var_name : string) (dims : DimList) (idx : nat) : string :=
  match dims !! idx with
  | Some (Some name) => name
  | _ => auto_dim_name var_name idx
  end.

(** [dims] after [k] turns of the loop. *)
Definition named_dims (var_name : string) (k : nat) (dims : DimList) : DimList :=
  ((λ idx, Some (dim_name_at var_name dims idx)) <$> seq 0 k) ++ drop k dims.

(** [coords] after the loop over [shape]. *)
Definition filled_coords (var_name : string) (dims : DimList)
    (shape : list nat) (coords : CoordSpec) : CoordSpec :=
  foldl (λ c p, default_coord (dim_name_at var_name dims p.1) p.2 c)
        coords (imap pair shape).

(** The warning of [generate_dims_coords], when it is due. *)
Definition dims_warning (shape : list nat) (var_name : string)
    (dims : DimList) (default_dims : list string) : list warning :=
  if length shape <? extra_dims default_dims dims then
    [MoreDimsThanShape var_name (length dims) (length shape)
                       (defaults_text default_dims)]
  else [].

(** The warning of [numpy_to_data_array], when it is due. *)
Definition chains_warning (n_chains n_samples : nat) : list warning :=
  if n_samples <? n_chains then [MoreChainsThanDraws n_chains n_samples] else [].

(** [c] occurs in [s]. *)
Fixpoint has_char (c : ascii) (s : string) : bool :=
  match s with
  | EmptyString => false
  | String a s' => bool_decide (a = c) || has_char c s'
  end.

(** The items [index_coords] returns for a list of names. *)
Definition items_of (coords : CoordSpec) (names : list string)
    : list (string * list label) :=
  (λ name, (name, default [] (coords !! name))) <$> names.

(** The invariant of a labeled array: as many names as axes, a coordinate
    for exactly the names of [dims], and each coordinate as long as the axis
    its name indexes. *)
Definition LabeledArray_invariant {A} (la : LabeledArray A) : Prop :=
  length (la_dims la) = length (nd_shape (la_values la)) ∧
  (∀ key, is_Some (la_coords la !! key) ↔ key ∈ la_dims la) ∧
  (∀ i name, la_dims la !! i = Some name →
     ∃ c n, la_coords la !! name = Some c ∧
            nd_shape (la_values la) !! i = Some n ∧ length c = n).

(** The call that the loop makes for one entry of [data]. *)
Definition label_entry {A} (coords : option CoordSpec)
    (dims : gmap string DimList) (kv : string * ndarray A) : M (LabeledArray A) :=
  numpy_to_data_array kv.2 kv.1 coords (dims !! kv.1).

(** What a state looks like after the list at [dims] and the dictionary at
    [coords] have been updated. *)
Definition updated (s : Heap.state) (dims coords : Heap.loc)
    (dv : DimList) (cv : CoordSpec) (s' : Heap.state) : Prop :=
  Heap.objects s' =
    <[coords := Heap.DictObj cv]> (<[dims := Heap.ListObj dv]> (Heap.objects s)) ∧
  Heap.emitted s' = Heap.emitted s.

(** A reference argument of the store model and the value it stands for. *)
Definition list_arg (s : Heap.state) (r : option Heap.loc) (v : option DimList) : Prop :=
  match r, v with
  | None, None => True
  | Some r, Some l => Heap.objects s !! r = Some (Heap.ListObj l)
  | _, _ => False
  end.

Definition dict_arg (s : Heap.state) (r : option Heap.loc) (v : option CoordSpec) : Prop :=
  match r, v with
  | None, None => True
  | Some r, Some d => Heap.objects s !! r = Some (Heap.DictObj d)
  | _, _ => False
  end.

(** ** [requires] *)

(** An argument of [requires]: one attribute name, or a list of names. *)
Inductive prop_spec :=
| PropName (name : string)
| PropList (names : list string).

(** What a call does: it returns a value, [None] among them, raises the
    [AttributeError] of [getattr], or raises something else. *)
Inductive py_outcome (R E : Type) :=
| PyReturn (v : option R)
| PyAttributeError (name : string)
| PyRaise (e : E).
Arguments PyReturn {R E} _.
Arguments PyAttributeError {R E} _.
Arguments PyRaise {R E} _.

(** [[prop] if isinstance(prop, str) else prop] *)
Definition prop_names (prop : prop_spec) : list string :=
  match prop with
  | PropName name => [name]
  | PropList names => names
  end.

(** [[getattr(cls, prop_i) is None for prop_i in prop]]: the list is built
    in full, in order, and [getattr] raises on the first name that [cls] has
    no attribute for.  An object is the map of its attributes, an attribute
    holding [None] or a value. *)
Fixpoint none_flags {V} (cls : gmap string (option V)) (names : list string)
    : string + list bool :=
  match names with
  | [] => inr []
  | name :: names' =>
      match cls !! name with
      | None => inl name
      | Some v =>
          match none_flags cls names' with
          | inl missing => inl missing
          | inr flags => inr (bool_decide (v = None) :: flags)
          end
      end
  end.

(** [wrapped]: the loop over [self.props], then the call of [func];
    [requires props func] is the function that the decorator built from
    [props] returns for [func]. *)
Fixpoint requires {V R E} (props : list prop_spec)
    (func : gmap string (option V) → py_outcome R E)
    (cls : gmap string (option V)) : py_outcome R E :=
  match props with
  | [] => func cls
  | prop :: props' =>
      match none_flags cls (prop_names prop) with
      | inl missing => PyAttributeError missing
      | inr flags =>
          if forallb id flags then PyReturn None
          else requires props' func cls
      end
  end.

(** ** The helpers on inference data *)

(** What the helpers read of an [InferenceData] object: [hasattr(idata,
    group)] holds for the groups that are present. *)
Record InferenceData (A : Type) := mk_InferenceData {
  posterior : option (Dataset A);
  prior : option (Dataset A);
  sample_stats : option (Dataset A);
  posterior_predictive : option (Dataset A);
  observed_data : option (Dataset A);
  constant_data : option (Dataset A)
}.
Arguments mk_InferenceData {A} _ _ _ _ _ _.
Arguments posterior {A} _.
Arguments prior {A} _.
Arguments sample_stats {A} _.
Arguments posterior_predictive {A} _.
Arguments observed_data {A} _.
Arguments constant_data {A} _.

(** [for var_name in dataset.data_vars: dims[var_name] =
    list(dataset[var_name].dims)[skip:]]; [data_vars] is a mapping, so the
    loop visits its items in order. *)
Definition record_dims {A} (skip : nat) (dataset : Dataset A)
    (dims : gmap string (list string)) : gmap string (list string) :=
  foldl (λ d kv, <[kv.1 := drop skip (la_dims kv.2)]> d) dims (data_vars dataset).

Definition get_predictions_dims {A} (idata : InferenceData A)
    (dims : option (gmap string (list string))) : gmap string (list string) :=
  match dims with
  | Some dims => dims
  | None =>
      let dims := ∅ in
      let dims :=
        match posterior_predictive idata with
        | Some dataset => record_dims 2 dataset dims
        | None => dims
        end in
      let dims :=
        match observed_data idata with
        | Some dataset => record_dims 0 dataset dims
        | None => dims
        end in
      let dims :=
        match constant_data idata with
        | Some dataset => record_dims 0 dataset dims
        | None => dims
        end in
      dims
  end.


(** [len(dataset.chain), len(dataset.draw)]: the coordinates of a dataset
    belong to [xr.Dataset], outside the repository; [coord_len dataset name]
    is the length of [dataset.<name>], [None] when the dataset has no such
    coordinate and the attribute access raises. *)
Definition dataset_nchains_ndraws {A} (coord_len : Dataset A → string → option nat)
    (dataset : Dataset A) : option (Z * Z) :=
  n_chains ← coord_len dataset "chain";
  n_draws ← coord_len dataset "draw";
  Some (Z.of_nat n_chains, Z.of_nat n_draws).

Definition get_posterior_nchains_ndraws {A}
    (coord_len : Dataset A → string → option nat) (idata : InferenceData A)
    : option (Z * Z) :=
  match posterior idata with
  | Some dataset => dataset_nchains_ndraws coord_len dataset
  | None =>
      match sample_stats idata with
      | Some dataset => dataset_nchains_ndraws coord_len dataset
      | None =>
          match posterior_predictive idata with
          | Some dataset => dataset_nchains_ndraws coord_len dataset
          | None => Some (-1, -1)%Z
          end
      end
  end.

(** [dataset[var_name]]: the mapping [data_vars] read as a finite map. *)
Definition dataset_vars {A} (dataset : Dataset A) : gmap string (LabeledArray A) :=
  foldl (λ m kv, <[kv.1 := kv.2]> m) ∅ (data_vars dataset).

(** The variables of a group that may be absent. *)
Definition group_vars {A} (group : option (Dataset A))
    : gmap string (LabeledArray A) :=
  match group with
  | Some dataset => dataset_vars dataset
  | None => ∅
  end.

(** The [dims] argument of [dict_to_dataset] made of the result of
    [get_predictions_dims]: every entry of a list is a name. *)
Definition as_dims_arg (dims : gmap string (list string)) : gmap string DimList :=
  (λ names : list string, Some <$> names) <$> dims.

(** * Properties *)

(** ** The result and warning monads *)

Lemma bind_Ok {A B} (ws : list warning) (a : A) (f : A → M B) :
  ((ws, Ok a) ≫= f) = (ws ++ (f a).1, (f a).2).
Proof. unfold mbind, M_bind, bind. by destruct (f a). Qed.

Lemma bind_Err {A B} (ws : list warning) (e : error) (f : A → M B) :
  ((ws, Err e) ≫= f) = (ws, Err e).
Proof. done. Qed.

Lemma rbind_Ok {A B} (a : A) (f : A → result B) : (Ok a ≫= f) = f a.
Proof. done. Qed.

(** ** [generate_dims_coords]: the loop *)

Lemma length_named_dims v k dims :
  length (named_dims v k dims) = k `max` length dims.
Proof.
  unfold named_dims.
  rewrite length_app, length_fmap, length_seq, length_drop. lia.
Qed.

Lemma lookup_named_dims v k dims i :
  named_dims v k dims !! i =
    if decide (i < k) then Some (Some (dim_name_at v dims i)) else dims !! i.
Proof.
  unfold named_dims. case_decide as Hi.
  - rewrite lookup_app_l by (rewrite length_fmap, length_seq; lia).
    rewrite list_lookup_fmap, lookup_seq_lt by lia. done.
  - rewrite lookup_app_r by (rewrite length_fmap, length_seq; lia).
    rewrite length_fmap, length_seq, lookup_drop. f_equal. lia.
Qed.

Lemma named_dims_0 v dims : named_dims v 0 dims = dims.
Proof. done. Qed.

Lemma axis_step_named v k n dims coords :
  axis_step v k n (named_dims v k dims, coords) =
    Ok (named_dims v (S k) dims, default_coord (dim_name_at v dims k) n coords).
Proof.
  unfold axis_step.
  assert (Hnext : ∀ D : DimList,
            length D = S k `max` length dims →
            (∀ i, i ≠ k → D !! i = named_dims v k dims !! i) →
            D !! k = Some (Some (dim_name_at v dims k)) →
            D = named_dims v (S k) dims).
  { intros D Hlen Hother Hk. apply list_eq. intros i.
    rewrite lookup_named_dims. destruct (decide (i = k)) as [->|Hne].
    - rewrite Hk. case_decide; [done | lia].
    - rewrite Hother, lookup_named_dims by done.
      repeat case_decide; try done; lia. }
  rewrite length_named_dims.
  assert (Hcur : named_dims v k dims !! k = dims !! k).
  { rewrite lookup_named_dims. case_decide; [lia | done]. }
  rewrite Hcur.
  destruct (decide (length dims ≤ k)) as [Hshort|Hlong].
  - assert (Hnone : dims !! k = None) by (by apply lookup_ge_None).
    assert (Hlt : (k `max` length dims <? k + 1) = true)
      by (apply Nat.ltb_lt; lia).
    rewrite Hlt. simpl.
    assert (Hname : dim_name_at v dims k = auto_dim_name v k)
      by (unfold dim_name_at; by rewrite Hnone).
    rewrite <- (Hnext (named_dims v k dims ++ [Some (auto_dim_name v k)])).
    + rewrite lookup_app_r by (rewrite length_named_dims; lia).
      rewrite length_named_dims.
      replace (k - k `max` length dims) with 0 by lia. simpl.
      by rewrite Hname.
    + rewrite length_app, length_named_dims. simpl. lia.
    + intros i Hi. destruct (decide (i < k)).
      * rewrite lookup_app_l by (rewrite length_named_dims; lia). done.
      * rewrite lookup_app_r by (rewrite length_named_dims; lia).
        rewrite length_named_dims, lookup_named_dims.
        case_decide; [lia|].
        rewrite (lookup_ge_None_2 dims) by lia.
        apply lookup_ge_None_2. simpl. lia.
    + rewrite lookup_app_r by (rewrite length_named_dims; lia).
      rewrite length_named_dims.
      replace (k - k `max` length dims) with 0 by lia. simpl.
      by rewrite Hname.
  - assert (Hlt : (k `max` length dims <? k + 1) = false)
      by (apply Nat.ltb_ge; lia).
    rewrite Hlt. simpl.
    destruct (dims !! k) as [[name|]|] eqn:Hk.
    + rewrite bool_decide_eq_false_2 by done.
      rewrite Hcur.
      assert (Hname : dim_name_at v dims k = name)
        by (unfold dim_name_at; by rewrite Hk).
      rewrite Hname.
      rewrite <- (Hnext (named_dims v k dims)); [done | | done | ].
      * rewrite length_named_dims. lia.
      * by rewrite Hcur, Hname.
    + rewrite bool_decide_eq_true_2 by done.
      assert (Hname : dim_name_at v dims k = auto_dim_name v k)
        by (unfold dim_name_at; by rewrite Hk).
      rewrite list_lookup_insert_eq by (rewrite length_named_dims; lia).
      rewrite Hname.
      rewrite <- (Hnext (<[k:=Some (auto_dim_name v k)]> (named_dims v k dims)));
        [done | | | ].
      * rewrite length_insert, length_named_dims. lia.
      * intros i Hi. by rewrite list_lookup_insert_ne.
      * rewrite list_lookup_insert_eq by (rewrite length_named_dims; lia).
        by rewrite Hname.
    + apply lookup_ge_None in Hk. lia.
Qed.

Lemma axes_loop_app v idx s1 s2 st :
  axes_loop v idx (s1 ++ s2) st =
    axes_loop v idx s1 st ≫= axes_loop v (idx + length s1) s2.
Proof.
  revert idx st. induction s1 as [|n s1 IH]; intros idx st; simpl.
  - by rewrite Nat.add_0_r.
  - destruct (axis_step v idx n st) as [st'|e]; simpl; [|done].
    rewrite IH. by replace (S idx + length s1) with (idx + S (length s1)) by lia.
Qed.

Lemma filled_coords_snoc v dims shape n coords :
  filled_coords v dims (shape ++ [n]) coords =
    default_coord (dim_name_at v dims (length shape)) n
                  (filled_coords v dims shape coords).
Proof.
  unfold filled_coords. rewrite imap_app, foldl_app. simpl.
  by rewrite Nat.add_0_r.
Qed.

(** The loop never fails, and its result has a closed form. *)
Lemma axes_loop_ok v shape dims coords :
  axes_loop v 0 shape (dims, coords) =
    Ok (named_dims v (length shape) dims, filled_coords v dims shape coords).
Proof.
  induction shape as [|n shape IH] using rev_ind; [done|].
  rewrite axes_loop_app, IH, rbind_Ok. simpl.
  rewrite axis_step_named. simpl.
  rewrite length_app, filled_coords_snoc. simpl.
  by rewrite Nat.add_1_r.
Qed.

(** [generate_dims_coords] always returns, with these warnings and values. *)
Lemma generate_dims_coords_eq shape v dims coords default_dims :
  generate_dims_coords shape v dims coords default_dims =
    (dims_warning shape v (default [] dims) (default [] default_dims),
     Ok (named_dims v (length shape) (default [] dims),
         used_coords (named_dims v (length shape) (default [] dims))
           (filled_coords v (default [] dims) shape (default ∅ coords)))).
Proof.
  unfold generate_dims_coords, dims_warning.
  rewrite axes_loop_ok.
  by destruct (length shape <? _).
Qed.

(** ** Coordinates after the loop *)

Lemma has_key_true (coords : CoordSpec) key :
  has_key coords key = true ↔ is_Some (coords !! key).
Proof. unfold has_key. apply bool_decide_eq_true. Qed.

Lemma lookup_default_coord name n (coords : CoordSpec) key :
  default_coord name n coords !! key =
    match coords !! key with
    | Some c => Some c
    | None => if decide (name = key) then Some (arange n) else None
    end.
Proof.
  unfold default_coord, has_key. case_bool_decide as Hk.
  - destruct (coords !! key) as [c|] eqn:Hc; [done|].
    case_decide as Heq; [|done]. subst. rewrite Hc in Hk. by destruct Hk.
  - rewrite lookup_insert. case_decide as Heq.
    + subst. destruct (coords !! key) as [c|] eqn:Hc; [|done].
      exfalso. apply Hk. by eexists.
    + by destruct (coords !! key).
Qed.

(** A coordinate the caller supplied is never replaced. *)
Lemma filled_coords_keeps v dims shape (coords : CoordSpec) key c :
  coords !! key = Some c → filled_coords v dims shape coords !! key = Some c.
Proof.
  intros Hc. induction shape as [|n shape IH] using rev_ind; [done|].
  by rewrite filled_coords_snoc, lookup_default_coord, IH.
Qed.

(** Every other coordinate is the default one of some axis. *)
Lemma filled_coords_origin v dims shape (coords : CoordSpec) key c :
  filled_coords v dims shape coords !! key = Some c →
  coords !! key = Some c ∨
  ∃ i n, shape !! i = Some n ∧ dim_name_at v dims i = key ∧ c = arange n.
Proof.
  induction shape as [|n shape IH] using rev_ind; [by left|].
  rewrite filled_coords_snoc, lookup_default_coord.
  destruct (filled_coords v dims shape coords !! key) as [c'|] eqn:Hc.
  - intros [= <-]. destruct (IH eq_refl) as [?|(i & m & Hi & ? & ?)]; [by left|].
    right. exists i, m. split_and!; [|done..].
    by apply lookup_app_l_Some.
  - case_decide as Heq; [|done]. intros [= <-]. right.
    exists (length shape), n. split_and!; [|done..].
    by rewrite lookup_app_r, Nat.sub_diag.
Qed.

(** Every axis has a coordinate under its name. *)
Lemma filled_coords_defined v dims shape (coords : CoordSpec) i n :
  shape !! i = Some n →
  is_Some (filled_coords v dims shape coords !! dim_name_at v dims i).
Proof.
  induction shape as [|m shape IH] using rev_ind; [done|].
  intros Hi. rewrite filled_coords_snoc, lookup_default_coord.
  destruct (decide (i < length shape)) as [Hlt|Hge].
  - rewrite lookup_app_l in Hi by done.
    destruct (IH Hi) as [c ->]. by eexists.
  - assert (i = length shape) as ->.
    { apply lookup_lt_Some in Hi. rewrite length_app in Hi. simpl in Hi. lia. }
    destruct (filled_coords v dims shape coords !! _); [by eexists|].
    rewrite decide_True by done. by eexists.
Qed.

(** The first axis of a name the caller gave no coordinate for decides it. *)
Lemma filled_coords_first v dims shape (coords : CoordSpec) i n :
  shape !! i = Some n →
  coords !! dim_name_at v dims i = None →
  (∀ j, j < i → dim_name_at v dims j ≠ dim_name_at v dims i) →
  filled_coords v dims shape coords !! dim_name_at v dims i = Some (arange n).
Proof.
  intros Hi Hnone Hfirst.
  induction shape as [|m shape IH] using rev_ind; [done|].
  rewrite filled_coords_snoc, lookup_default_coord.
  destruct (decide (i < length shape)) as [Hlt|Hge].
  - rewrite lookup_app_l in Hi by done. by rewrite IH.
  - assert (i = length shape) as ->.
    { apply lookup_lt_Some in Hi. rewrite length_app in Hi. simpl in Hi. lia. }
    rewrite lookup_app_r, Nat.sub_diag in Hi by done. injection Hi as ->.
    destruct (filled_coords v dims shape coords !! _) as [c|] eqn:Hc.
    + apply filled_coords_origin in Hc as [Hc|(j & k & Hj & Hname & _)].
      * congruence.
      * apply lookup_lt_Some in Hj. by destruct (Hfirst j).
    + by rewrite decide_True.
Qed.

Lemma lookup_used_coords dims (coords : CoordSpec) key :
  used_coords dims coords !! key =
    if decide (Some key ∈ dims) then coords !! key else None.
Proof.
  unfold used_coords. rewrite map_lookup_filter.
  destruct (coords !! key) as [c|]; simpl; [|by case_decide].
  case_decide.
  - by rewrite option_guard_True.
  - by rewrite option_guard_False.
Qed.

(** ** Generated names *)

Example auto_dim_name_theta : auto_dim_name "theta" 0 = "theta_dim_0".
Proof. reflexivity. Qed.

Example auto_dim_name_two_digits : auto_dim_name "x" 12 = "x_dim_12".
Proof. reflexivity. Qed.

Lemma auto_dim_name_inj v i j : auto_dim_name v i = auto_dim_name v j → i = j.
Proof.
  unfold auto_dim_name. intros H.
  apply (inj (String.app v)) in H.
  apply (inj (String.app "_dim_")) in H.
  by apply (inj pretty) in H.
Qed.

Lemma has_char_app c s1 s2 :
  has_char c (s1 +:+ s2) = has_char c s1 || has_char c s2.
Proof.
  induction s1 as [|a s1 IH]; [done|].
  simpl. by rewrite IH, orb_assoc.
Qed.

Lemma auto_dim_name_underscore v i : has_char "_"%char (auto_dim_name v i) = true.
Proof.
  unfold auto_dim_name. rewrite !has_char_app. simpl.
  by rewrite orb_true_r.
Qed.

Lemma auto_dim_name_not_chain v i : auto_dim_name v i ≠ "chain".
Proof.
  intros H. pose proof (auto_dim_name_underscore v i) as Hu.
  rewrite H in Hu. done.
Qed.

Lemma auto_dim_name_not_draw v i : auto_dim_name v i ≠ "draw".
Proof.
  intros H. pose proof (auto_dim_name_underscore v i) as Hu.
  rewrite H in Hu. done.
Qed.

(** ** Names after the loop *)

Lemma dim_name_at_nil v i : dim_name_at v [] i = auto_dim_name v i.
Proof. done. Qed.

Lemma named_dims_nil v k :
  named_dims v k [] = (λ idx, Some (auto_dim_name v idx)) <$> seq 0 k.
Proof. unfold named_dims. by rewrite drop_nil, app_nil_r. Qed.

Lemma elem_of_named_dims v k dims (x : option string) :
  x ∈ named_dims v k dims ↔
    (∃ i, i < k ∧ x = Some (dim_name_at v dims i)) ∨ x ∈ drop k dims.
Proof.
  unfold named_dims. rewrite elem_of_app, list_elem_of_fmap.
  apply or_iff_compat_r. split.
  - intros (i & -> & Hi). apply elem_of_seq in Hi. exists i. split; [lia|done].
  - intros (i & Hi & ->). exists i. split; [done|]. apply elem_of_seq. lia.
Qed.

Lemma named_dims_short v k dims (x : option string) :
  length dims ≤ k →
  x ∈ named_dims v k dims ↔ ∃ i, i < k ∧ x = Some (dim_name_at v dims i).
Proof.
  intros Hlen. rewrite elem_of_named_dims, drop_ge by done.
  split; [intros [?|Hin]; [done|by apply elem_of_nil in Hin] | by left].
Qed.

(** ** [generate_dims_coords]: what it returns *)

(** Without names and coordinates from the caller every axis gets the
    generated name and the default coordinate. *)
Lemma generate_dims_coords_None shape v default_dims :
  ∃ coords : CoordSpec,
    generate_dims_coords shape v None None default_dims =
      ([], Ok (Some <$> (auto_dim_name v <$> seq 0 (length shape)), coords)) ∧
    (∀ i n, shape !! i = Some n → coords !! auto_dim_name v i = Some (arange n)) ∧
    (∀ key, is_Some (coords !! key) →
            ∃ i, i < length shape ∧ key = auto_dim_name v i).
Proof.
  exists (used_coords (named_dims v (length shape) [])
                      (filled_coords v [] shape ∅)).
  split_and!.
  - rewrite generate_dims_coords_eq. simpl.
    rewrite named_dims_nil, <- list_fmap_compose. done.
  - intros i n Hi. rewrite lookup_used_coords, decide_True.
    + rewrite <- (dim_name_at_nil v i).
      apply filled_coords_first; [done..|].
      intros j Hj. rewrite !dim_name_at_nil.
      intros Heq. apply auto_dim_name_inj in Heq. lia.
    + apply named_dims_short; [simpl; lia|]. exists i. split; [|done].
      by apply lookup_lt_Some in Hi.
  - intros key [c Hc]. rewrite lookup_used_coords in Hc.
    case_decide as Hin; [|done].
    apply named_dims_short in Hin as (i & Hi & [= ->]); [|simpl; lia].
    by exists i.
Qed.

(** C1: with [dims=None] and [coords=None], for every shape and every
    [var_name] (the non-empty ones among them), [generate_dims_coords]
    returns the names [<var_name>_dim_0], ..., [<var_name>_dim_{k-1}] for
    [k = len(shape)], and a coords map that sends each of these names to
    [0..shape[i]-1] and has no other key. *)
Theorem generate_dims_coords_defaults shape var_name default_dims :
  ∃ coords : CoordSpec,
    generate_dims_coords shape var_name None None default_dims =
      ([], Ok ((λ idx, Some (auto_dim_name var_name idx)) <$> seq 0 (length shape),
               coords)) ∧
    (∀ i, i < length shape →
          ∃ n, shape !! i = Some n ∧
               coords !! auto_dim_name var_name i = Some (arange n)) ∧
    (∀ key, is_Some (coords !! key) →
            ∃ i, i < length shape ∧ key = auto_dim_name var_name i).
Proof.
  destruct (generate_dims_coords_None shape var_name default_dims)
    as (coords & Heq & Haxes & Hkeys).
  exists coords. split_and!; [|  |done].
  - by rewrite Heq, <- list_fmap_compose.
  - intros i Hi. destruct (lookup_lt_is_Some_2 shape i Hi) as [n Hn].
    exists n. split; [done|]. by apply Haxes.
Qed.

(** C5, as the code has it: [generate_dims_coords] always returns; the
    returned dims has as many entries as the longer of [shape] and the
    supplied dims, every axis of [shape] has a name in it and a coordinate
    under that name, and every key of the returned coords is a name of the
    returned dims.  When the supplied dims is not longer than [shape], the
    returned dims has exactly [len(shape)] entries and the returned coords
    has exactly one entry per name in it. *)
Theorem generate_dims_coords_sizes shape var_name dims coords default_dims :
  ∃ ws (dims' : DimList) (coords' : CoordSpec),
    generate_dims_coords shape var_name dims coords default_dims =
      (ws, Ok (dims', coords')) ∧
    length dims' = length shape `max` length (default [] dims) ∧
    (∀ i, i < length shape →
          ∃ name, dims' !! i = Some (Some name) ∧ is_Some (coords' !! name)) ∧
    (∀ key, is_Some (coords' !! key) → Some key ∈ dims') ∧
    (length (default [] dims) ≤ length shape →
       length dims' = length shape ∧
       ∀ key, is_Some (coords' !! key) ↔ Some key ∈ dims').
Proof.
  do 3 eexists. split; [apply generate_dims_coords_eq|].
  set (ds := default [] dims). set (cs := default ∅ coords).
  assert (Haxis : ∀ i, i < length shape →
            is_Some (used_coords (named_dims var_name (length shape) ds)
                       (filled_coords var_name ds shape cs)
                     !! dim_name_at var_name ds i)).
  { intros i Hi. rewrite lookup_used_coords, decide_True.
    - destruct (lookup_lt_is_Some_2 shape i Hi) as [n Hn].
      by eapply filled_coords_defined.
    - apply elem_of_named_dims. left. by exists i. }
  assert (Hkeys : ∀ key,
            is_Some (used_coords (named_dims var_name (length shape) ds)
                       (filled_coords var_name ds shape cs) !! key) →
            Some key ∈ named_dims var_name (length shape) ds).
  { intros key [c Hc]. rewrite lookup_used_coords in Hc. by case_decide. }
  split_and!.
  - apply length_named_dims.
  - intros i Hi. exists (dim_name_at var_name ds i). split; [|by apply Haxis].
    rewrite lookup_named_dims. by rewrite decide_True.
  - done.
  - intros Hlen. split; [rewrite length_named_dims; lia|].
    intros key. split; [apply Hkeys|].
    intros Hin. apply named_dims_short in Hin as (i & Hi & [= ->]); [|done].
    by apply Haxis.
Qed.

(** C5 as stated fails: with one axis and two names the returned dims keeps
    both names, and the second has no coordinate. *)
Lemma generate_dims_coords_sizes_counterexample :
  ¬ (∀ shape var_name dims coords default_dims ws
       (dims' : DimList) (coords' : CoordSpec),
       generate_dims_coords shape var_name dims coords default_dims =
         (ws, Ok (dims', coords')) →
       length dims' = length shape ∧
       ∀ key, is_Some (coords' !! key) ↔ Some key ∈ dims').
Proof.
  intros H.
  destruct (H [3] "x" (Some [Some "a"; Some "b"]) None None _ _ _
              (generate_dims_coords_eq _ _ _ _ _)) as [Hlen _].
  vm_compute in Hlen. discriminate.
Qed.

Example generate_dims_coords_two_names_one_axis :
  ∃ ws (coords' : CoordSpec),
    generate_dims_coords [3] "x" (Some [Some "a"; Some "b"]) None None =
      (ws, Ok ([Some "a"; Some "b"], coords')) ∧
    ws = [MoreDimsThanShape "x" 2 1 ", "] ∧
    coords' !! "a" = Some [LInt 0; LInt 1; LInt 2] ∧
    coords' !! "b" = None.
Proof. do 2 eexists. split_and!; by vm_compute. Qed.

(** ** [numpy_to_data_array]: the pieces *)

Lemma length_arange n : length (arange n) = n.
Proof. unfold arange. by rewrite length_fmap, length_seq. Qed.

Lemma two_de_rank2 {A} (ary : ndarray A) c d S :
  nd_shape ary = c :: d :: S → two_de ary = ary.
Proof. unfold two_de. by intros ->. Qed.

Lemma two_de_rank1 {A} (ary : ndarray A) n :
  nd_shape ary = [n] → nd_shape (two_de ary) = [1; n].
Proof. unfold two_de. by intros ->. Qed.

Lemma index_coords_names (coords : CoordSpec) names :
  (∀ name, name ∈ names → is_Some (coords !! name)) →
  index_coords coords (Some <$> names) = Ok (items_of coords names).
Proof.
  induction names as [|name names IH]; intros Hall; [done|].
  csimpl. destruct (Hall name) as [c Hc]; [apply list_elem_of_here|].
  rewrite Hc, IH; [done|].
  intros k Hk. apply Hall. by apply list_elem_of_further.
Qed.

Lemma index_coords_Ok (coords : CoordSpec) dims items :
  index_coords coords dims = Ok items →
  ∃ names, dims = Some <$> names ∧
           (∀ name, name ∈ names → is_Some (coords !! name)) ∧
           items = items_of coords names.
Proof.
  revert items. induction dims as [|key dims IH]; intros items; simpl.
  - intros [= <-]. exists []. split_and!; [done| |done].
    intros name Hin. by apply elem_of_nil in Hin.
  - destruct key as [name|]; [|done].
    destruct (coords !! name) as [c|] eqn:Hc; [|done].
    destruct (index_coords coords dims) as [items'|e]; [|done].
    simpl. intros [= <-].
    destruct (IH items' eq_refl) as (names & -> & Hall & ->).
    exists (name :: names). split_and!; [done| |].
    + intros k [->|Hk]%elem_of_cons; [by eexists | by apply Hall].
    + simpl. by rewrite Hc.
Qed.

Lemma index_coords_KeyError (coords : CoordSpec) dims e :
  index_coords coords dims = Err e → ∃ key, e = KeyError key.
Proof.
  induction dims as [|key dims IH]; simpl; [done|].
  destruct key as [name|]; [|intros [= <-]; by eexists].
  destruct (coords !! name) as [c|]; [|intros [= <-]; by eexists].
  destruct (index_coords coords dims) as [items'|e']; [done|].
  simpl. intros [= <-]. by apply IH.
Qed.

Lemma items_of_names (coords : CoordSpec) names :
  (items_of coords names).*1 = names.
Proof.
  unfold items_of.
  induction names as [|name names IH]; [done|]. csimpl. by rewrite IH.
Qed.

Lemma lookup_foldl_items (coords acc : CoordSpec) names key :
  (∀ name, name ∈ names → is_Some (coords !! name)) →
  foldl (λ d kv, <[kv.1 := kv.2]> d) acc (items_of coords names) !! key =
    if decide (key ∈ names) then coords !! key else acc !! key.
Proof.
  revert acc. induction names as [|name names IH]; intros acc Hall; simpl.
  - done.
  - rewrite IH by (intros k Hk; apply Hall; by apply list_elem_of_further).
    destruct (decide (key ∈ names)) as [Hin|Hnin].
    + rewrite decide_True; [done|]. by apply list_elem_of_further.
    + destruct (decide (key = name)) as [->|Hne].
      * rewrite decide_True by apply list_elem_of_here.
        rewrite lookup_insert_eq.
        destruct (Hall name) as [c Hc]; [apply list_elem_of_here|].
        by rewrite Hc.
      * rewrite lookup_insert_ne by done.
        rewrite decide_False; [done|].
        intros [?|?]%elem_of_cons; done.
Qed.

(** The dictionary of the final comprehension: [coords] restricted to the
    names of [dims]. *)
Lemma lookup_dict_of_items (coords : CoordSpec) names key :
  (∀ name, name ∈ names → is_Some (coords !! name)) →
  dict_of_items (items_of coords names) !! key =
    if decide (key ∈ names) then coords !! key else None.
Proof.
  intros Hall. unfold dict_of_items. by rewrite lookup_foldl_items.
Qed.

Lemma DataArray_Ok {A} (ary : ndarray A) (coords : CoordSpec) names la :
  DataArray ary coords names = Ok la →
  la = mk_LabeledArray ary names coords ∧
  length names = length (nd_shape ary) ∧
  ∀ i name n, names !! i = Some name → nd_shape ary !! i = Some n →
              fits coords name n = true.
Proof.
  unfold DataArray. case_bool_decide as Hlen; [|done].
  destruct (forallb _ _) eqn:Hall; [|done].
  intros [= <-]. split_and!; [done..|].
  intros i name n Hi Hn.
  rewrite forallb_forall in Hall.
  apply (Hall (name, n)). apply list_elem_of_In, list_elem_of_lookup.
  exists i. by apply lookup_zip_Some.
Qed.

Lemma DataArray_fits {A} (ary : ndarray A) (coords : CoordSpec) names :
  length names = length (nd_shape ary) →
  (∀ i name n, names !! i = Some name → nd_shape ary !! i = Some n →
               fits coords name n = true) →
  DataArray ary coords names = Ok (mk_LabeledArray ary names coords).
Proof.
  intros Hlen Hfits. unfold DataArray.
  rewrite bool_decide_eq_true_2 by done.
  assert (forallb (λ p, fits coords p.1 p.2) (zip names (nd_shape ary)) = true)
    as ->; [|done].
  apply forallb_forall. intros [name n] Hin.
  apply list_elem_of_In, list_elem_of_lookup in Hin as [i Hi].
  apply lookup_zip_Some in Hi as [? ?]. by eapply Hfits.
Qed.

Lemma DataArray_misfit {A} (ary : ndarray A) (coords : CoordSpec) names i name n c :
  length names = length (nd_shape ary) →
  names !! i = Some name → nd_shape ary !! i = Some n →
  coords !! name = Some c → length c ≠ n →
  DataArray ary coords names = Err CoordinateLengthError.
Proof.
  intros Hlen Hi Hn Hc Hne. unfold DataArray.
  rewrite bool_decide_eq_true_2 by done.
  destruct (forallb _ _) eqn:Hall; [|done].
  rewrite forallb_forall in Hall.
  assert (fits coords name n = true) as Hfit.
  { apply (Hall (name, n)). apply list_elem_of_In, list_elem_of_lookup.
    exists i. by apply lookup_zip_Some. }
  unfold fits in Hfit. rewrite Hc in Hfit.
  by apply bool_decide_eq_true in Hfit.
Qed.

Lemma DataArray_Err {A} (ary : ndarray A) (coords : CoordSpec) names e :
  DataArray ary coords names = Err e →
  e = DimsRankError ∨ e = CoordinateLengthError.
Proof.
  unfold DataArray. case_bool_decide; [|intros [= <-]; by left].
  destruct (forallb _ _); [done|]. intros [= <-]. by right.
Qed.

(** ** [numpy_to_data_array]: the whole *)

(** The function after the shape is unpacked and the names are inferred. *)
Lemma numpy_to_data_array_run {A} (ary : ndarray A) v coords dims c d S
    ws (dims1 : DimList) (coords1 : CoordSpec) :
  nd_shape (two_de ary) = c :: d :: S →
  generate_dims_coords S v dims coords (Some ["chain"; "draw"]) =
    (ws, Ok (dims1, coords1)) →
  numpy_to_data_array ary v coords dims =
    (chains_warning c d ++ ws,
     index_coords (default_coord "draw" d (default_coord "chain" c coords1))
                  (normalize_dims dims1)
     ≫= λ items, DataArray (two_de ary) (dict_of_items items) items.*1).
Proof.
  intros Hshape Hgdc. unfold numpy_to_data_array, chains_warning.
  rewrite Hshape, Hgdc.
  destruct (d <? c); simpl.
  - unfold mbind, M_bind, bind, lift. simpl.
    destruct (index_coords _ _) as [items|e]; simpl; [|by rewrite app_nil_r].
    by rewrite !app_nil_r.
  - unfold mbind, M_bind, bind, lift. simpl.
    destruct (index_coords _ _) as [items|e]; simpl; [|by rewrite app_nil_r].
    by rewrite !app_nil_r.
Qed.

Lemma numpy_to_data_array_low_rank {A} (ary : ndarray A) v coords dims :
  length (nd_shape (two_de ary)) < 2 →
  numpy_to_data_array ary v coords dims = ([], Err ValueError).
Proof.
  unfold numpy_to_data_array.
  destruct (nd_shape (two_de ary)) as [|c [|d S]]; simpl; [done..|lia].
Qed.

(** A labeled array that is returned is built from the unpacked shape, the
    normalized names and the coordinates of exactly these names. *)
Lemma numpy_to_data_array_Ok {A} (ary : ndarray A) v coords dims la :
  outcome (numpy_to_data_array ary v coords dims) = Ok la →
  ∃ c d S ws (dims1 : DimList) (coords1 : CoordSpec) names,
    nd_shape (two_de ary) = c :: d :: S ∧
    generate_dims_coords S v dims coords (Some ["chain"; "draw"]) =
      (ws, Ok (dims1, coords1)) ∧
    normalize_dims dims1 = Some <$> names ∧
    (∀ name, name ∈ names →
       is_Some (default_coord "draw" d (default_coord "chain" c coords1) !! name)) ∧
    DataArray (two_de ary)
      (dict_of_items
         (items_of (default_coord "draw" d (default_coord "chain" c coords1)) names))
      names = Ok la.
Proof.
  destruct (nd_shape (two_de ary)) as [|c [|d S]] eqn:Hshape.
  - rewrite numpy_to_data_array_low_rank by (rewrite Hshape; simpl; lia). done.
  - rewrite numpy_to_data_array_low_rank by (rewrite Hshape; simpl; lia). done.
  - destruct (generate_dims_coords_sizes S v dims coords (Some ["chain"; "draw"]))
      as (ws & dims1 & coords1 & Hgdc & _).
    rewrite (numpy_to_data_array_run _ _ _ _ _ _ _ _ _ _ Hshape Hgdc).
    unfold outcome. simpl.
    destruct (index_coords _ _) as [items|e] eqn:Hitems; [|done].
    apply index_coords_Ok in Hitems as (names & Hnames & Hall & ->).
    rewrite rbind_Ok, items_of_names. intros Hla.
    by exists c, d, S, ws, dims1, coords1, names.
Qed.

Lemma LabeledArray_invariant_intro {A} (ary : ndarray A) (coords : CoordSpec)
    names la :
  (∀ name, name ∈ names → is_Some (coords !! name)) →
  DataArray ary (dict_of_items (items_of coords names)) names = Ok la →
  LabeledArray_invariant la.
Proof.
  intros Hall (-> & Hlen & Hfits)%DataArray_Ok.
  unfold LabeledArray_invariant. simpl. split_and!; [done| |].
  - intros key. rewrite lookup_dict_of_items by done.
    case_decide as Hin; [|split; [by intros [??]|done]].
    split; [done|]. intros _. by apply Hall.
  - intros i name Hi.
    assert (Hin : name ∈ names) by (apply list_elem_of_lookup; by exists i).
    destruct (Hall name Hin) as [c Hc].
    destruct (lookup_lt_is_Some_2 (nd_shape ary) i) as [n Hn].
    { rewrite <- Hlen. by apply lookup_lt_Some in Hi. }
    exists c, n. split_and!; [|done|].
    + rewrite lookup_dict_of_items by done. by rewrite decide_True.
    + specialize (Hfits i name n Hi Hn). unfold fits in Hfits.
      rewrite lookup_dict_of_items, decide_True, Hc in Hfits by done.
      by apply bool_decide_eq_true in Hfits.
Qed.

Lemma numpy_to_data_array_Ok_invariant {A} (ary : ndarray A) v coords dims la :
  outcome (numpy_to_data_array ary v coords dims) = Ok la →
  LabeledArray_invariant la.
Proof.
  intros (c & d & S & ws & dims1 & coords1 & names & _ & _ & _ & Hall & Hla)
    %numpy_to_data_array_Ok.
  by eapply LabeledArray_invariant_intro.
Qed.

(** C2: every labeled array that [numpy_to_data_array] returns has as many
    dimension names as the array has axes, a coordinate map whose keys are
    exactly the names of its dims, and coordinate sequences as long as the
    axes they index. *)
Theorem numpy_to_data_array_invariant {A} (ary : ndarray A) var_name coords dims la :
  outcome (numpy_to_data_array ary var_name coords dims) = Ok la →
  length (la_dims la) = length (nd_shape (la_values la)) ∧
  (∀ key, is_Some (la_coords la !! key) ↔ key ∈ la_dims la) ∧
  (∀ i name, la_dims la !! i = Some name →
     ∃ c n, la_coords la !! name = Some c ∧
            nd_shape (la_values la) !! i = Some n ∧ length c = n) ∧
  la_values la = two_de ary.
Proof.
  intros Hla. split_and!;
    try by apply (numpy_to_data_array_Ok_invariant ary var_name coords dims la).
  apply numpy_to_data_array_Ok in Hla
    as (c & d & S & ws & dims1 & coords1 & names & _ & _ & _ & _ & Hla).
  by apply DataArray_Ok in Hla as (-> & _).
Qed.

(** ** Labeling without overrides *)

Lemma auto_names_not_reserved v k :
  (Some "chain" ∉ (Some <$> (auto_dim_name v <$> seq 0 k))) ∧
  (Some "draw" ∉ (Some <$> (auto_dim_name v <$> seq 0 k))).
Proof.
  split; intros (name & [= <-] & (i & Hname & _)%list_elem_of_fmap)%list_elem_of_fmap.
  - by eapply auto_dim_name_not_chain.
  - by eapply auto_dim_name_not_draw.
Qed.

Lemma normalize_dims_auto v k :
  normalize_dims (Some <$> (auto_dim_name v <$> seq 0 k)) =
    Some <$> ("chain" :: "draw" :: (auto_dim_name v <$> seq 0 k)).
Proof.
  destruct (auto_names_not_reserved v k) as [Hchain Hdraw].
  unfold normalize_dims, prepend_missing.
  rewrite (bool_decide_eq_false_2 _ Hdraw).
  rewrite bool_decide_eq_false_2; [done|].
  intros [?|?]%elem_of_cons; done.
Qed.

(** An array of rank 2 or more, labeled without overrides. *)
Lemma numpy_to_data_array_None {A} (ary : ndarray A) v c d S :
  nd_shape ary = c :: d :: S →
  ∃ coords : CoordSpec,
    numpy_to_data_array ary v None None =
      (chains_warning c d,
       Ok (mk_LabeledArray ary
             ("chain" :: "draw" :: (auto_dim_name v <$> seq 0 (length S)))
             coords)) ∧
    coords !! "chain" = Some (arange c) ∧
    coords !! "draw" = Some (arange d) ∧
    (∀ i n, S !! i = Some n → coords !! auto_dim_name v i = Some (arange n)) ∧
    (∀ key, is_Some (coords !! key) →
            key ∈ "chain" :: "draw" :: (auto_dim_name v <$> seq 0 (length S))).
Proof.
  intros Hshape.
  destruct (generate_dims_coords_None S v (Some ["chain"; "draw"]))
    as (coords1 & Hgdc & Haxes & Hkeys).
  set (names := "chain" :: "draw" :: (auto_dim_name v <$> seq 0 (length S))).
  set (C := default_coord "draw" d (default_coord "chain" c coords1)).
  assert (Hnochain : coords1 !! "chain" = None).
  { destruct (coords1 !! "chain") eqn:Hc; [|done].
    destruct (Hkeys "chain") as (i & _ & Hi); [by eexists|].
    symmetry in Hi. by apply auto_dim_name_not_chain in Hi. }
  assert (Hnodraw : coords1 !! "draw" = None).
  { destruct (coords1 !! "draw") eqn:Hc; [|done].
    destruct (Hkeys "draw") as (i & _ & Hi); [by eexists|].
    symmetry in Hi. by apply auto_dim_name_not_draw in Hi. }
  assert (HCchain : C !! "chain" = Some (arange c)).
  { unfold C. rewrite !lookup_default_coord, Hnochain. done. }
  assert (HCdraw : C !! "draw" = Some (arange d)).
  { unfold C. rewrite !lookup_default_coord, Hnodraw. done. }
  assert (HCaxis : ∀ i n, S !! i = Some n →
                          C !! auto_dim_name v i = Some (arange n)).
  { intros i n Hi. unfold C. rewrite !lookup_default_coord.
    by rewrite (Haxes i n Hi). }
  assert (Hall : ∀ name, name ∈ names → is_Some (C !! name)).
  { intros name [->|[->|Hin]%elem_of_cons]%elem_of_cons; [by eexists..|].
    apply list_elem_of_fmap in Hin as (i & -> & Hi). apply elem_of_seq in Hi.
    destruct (lookup_lt_is_Some_2 S i) as [n Hn]; [lia|].
    rewrite (HCaxis i n Hn). by eexists. }
  exists (dict_of_items (items_of C names)).
  split_and!.
  - assert (Htwo : nd_shape (two_de ary) = c :: d :: S)
      by (by rewrite (two_de_rank2 _ _ _ _ Hshape)).
    rewrite (numpy_to_data_array_run _ _ _ _ _ _ _ _ _ _ Htwo Hgdc).
    rewrite app_nil_r, normalize_dims_auto.
    fold names. fold C. rewrite (index_coords_names C names Hall), rbind_Ok.
    rewrite items_of_names, (two_de_rank2 _ _ _ _ Hshape).
    rewrite DataArray_fits; [done| |].
    + rewrite Hshape. unfold names. simpl.
      by rewrite length_fmap, length_seq.
    + intros i name n Hi Hn. unfold fits.
      rewrite lookup_dict_of_items, decide_True
        by (done || (apply list_elem_of_lookup; by exists i)).
      rewrite Hshape in Hn. unfold names in Hi.
      destruct i as [|[|i]]; simpl in Hi, Hn.
      * injection Hi as <-. injection Hn as <-.
        rewrite HCchain. apply bool_decide_eq_true, length_arange.
      * injection Hi as <-. injection Hn as <-.
        rewrite HCdraw. apply bool_decide_eq_true, length_arange.
      * rewrite list_lookup_fmap in Hi.
        destruct (seq 0 (length S) !! i) as [j|] eqn:Hj; [|done].
        apply lookup_seq in Hj as [-> _]. simpl in Hi. injection Hi as <-.
        rewrite (HCaxis i n Hn). apply bool_decide_eq_true, length_arange.
  - rewrite lookup_dict_of_items, decide_True; [done| |done].
    apply list_elem_of_here.
  - rewrite lookup_dict_of_items, decide_True; [done| |done].
    apply list_elem_of_further, list_elem_of_here.
  - intros i n Hi. rewrite lookup_dict_of_items, decide_True; [by apply HCaxis| |done].
    do 2 apply list_elem_of_further. apply list_elem_of_fmap. exists i.
    split; [done|]. apply elem_of_seq. apply lookup_lt_Some in Hi. lia.
  - intros key [x Hx]. rewrite lookup_dict_of_items in Hx by done.
    by case_decide.
Qed.

(** C3: an array of rank 2 or more, labeled without overrides, gets the dims
    [chain], [draw] and then the generated names of its free axes, with the
    default integer range as the coordinate of every axis and no other
    coordinate.  Shape (4, 100) gives dims [chain, draw] with chain
    coordinates 0..3 and draw coordinates 0..99; shape (4, 100, 8) with
    var_name "theta" gives dims [chain, draw, theta_dim_0] with
    theta_dim_0 coordinates 0..7. *)
Theorem numpy_to_data_array_defaults :
  (∀ A (ary : ndarray A) var_name n_chains n_samples shape,
     nd_shape ary = n_chains :: n_samples :: shape →
     ∃ coords : CoordSpec,
       outcome (numpy_to_data_array ary var_name None None) =
         Ok (mk_LabeledArray ary
               ("chain" :: "draw" ::
                  (auto_dim_name var_name <$> seq 0 (length shape)))
               coords) ∧
       coords !! "chain" = Some (arange n_chains) ∧
       coords !! "draw" = Some (arange n_samples) ∧
       (∀ i n, shape !! i = Some n →
               coords !! auto_dim_name var_name i = Some (arange n)) ∧
       (∀ key, is_Some (coords !! key) →
               key ∈ "chain" :: "draw" ::
                       (auto_dim_name var_name <$> seq 0 (length shape)))) ∧
  (∀ A (data : list A),
     outcome (numpy_to_data_array (mk_ndarray [4; 100] data)
                default_var_name None None) =
       Ok (mk_LabeledArray (mk_ndarray [4; 100] data) ["chain"; "draw"]
             (<["chain" := [LInt 0; LInt 1; LInt 2; LInt 3]]>
                (<["draw" := arange 100]> ∅)))) ∧
  (∀ A (data : list A),
     outcome (numpy_to_data_array (mk_ndarray [4; 100; 8] data)
                "theta" None None) =
       Ok (mk_LabeledArray (mk_ndarray [4; 100; 8] data)
             ["chain"; "draw"; "theta_dim_0"]
             (<["chain" := arange 4]>
                (<["draw" := arange 100]>
                   (<["theta_dim_0" :=
                        [LInt 0; LInt 1; LInt 2; LInt 3;
                         LInt 4; LInt 5; LInt 6; LInt 7]]> ∅))))).
Proof.
  split_and!.
  - intros A ary v c d S Hshape.
    destruct (numpy_to_data_array_None ary v c d S Hshape)
      as (coords & Heq & ?). exists coords. by rewrite Heq.
  - intros A data. by vm_compute.
  - intros A data. by vm_compute.
Qed.

(** ** The reserved names *)

Lemma normalize_dims_cases dims :
  (Some "draw" ∉ dims → Some "chain" ∉ dims →
     normalize_dims dims = Some "chain" :: Some "draw" :: dims) ∧
  (Some "draw" ∉ dims → Some "chain" ∈ dims →
     normalize_dims dims = Some "draw" :: dims) ∧
  (Some "draw" ∈ dims → Some "chain" ∉ dims →
     normalize_dims dims = Some "chain" :: dims) ∧
  (Some "draw" ∈ dims → Some "chain" ∈ dims → normalize_dims dims = dims).
Proof.
  unfold normalize_dims, prepend_missing.
  split_and!; intros Hdraw Hchain.
  - rewrite (bool_decide_eq_false_2 _ Hdraw).
    rewrite bool_decide_eq_false_2; [done|].
    intros [?|?]%elem_of_cons; done.
  - rewrite (bool_decide_eq_false_2 _ Hdraw).
    rewrite bool_decide_eq_true_2; [done|]. by apply list_elem_of_further.
  - rewrite (bool_decide_eq_true_2 _ Hdraw).
    by rewrite (bool_decide_eq_false_2 _ Hchain).
  - rewrite (bool_decide_eq_true_2 _ Hdraw).
    by rewrite (bool_decide_eq_true_2 _ Hchain).
Qed.

Lemma normalize_dims_reserved dims :
  Some "chain" ∈ normalize_dims dims ∧ Some "draw" ∈ normalize_dims dims.
Proof.
  destruct (normalize_dims_cases dims) as (H1 & H2 & H3 & H4).
  destruct (decide (Some "draw" ∈ dims)) as [Hd|Hd],
           (decide (Some "chain" ∈ dims)) as [Hc|Hc].
  - by rewrite H4.
  - rewrite H3 by done. split; [apply list_elem_of_here|by apply list_elem_of_further].
  - rewrite H2 by done. split; [by apply list_elem_of_further|apply list_elem_of_here].
  - rewrite H1 by done.
    split; [apply list_elem_of_here|apply list_elem_of_further, list_elem_of_here].
Qed.



Example draw_before_chain :
  ∃ coords,
    numpy_to_data_array (mk_ndarray [4; 4] ([] : list Z)) "x" None
                        (Some [Some "chain"]) =
      ([], Ok (mk_LabeledArray (mk_ndarray [4; 4] []) ["draw"; "chain"] coords)).
Proof. eexists. by vm_compute. Qed.

(** ** Warnings *)

Lemma generate_dims_coords_warnings shape v dims coords default_dims :
  warnings (generate_dims_coords shape v dims coords default_dims) =
    dims_warning shape v (default [] dims) (default [] default_dims).
Proof. by rewrite generate_dims_coords_eq. Qed.

Lemma numpy_to_data_array_warnings {A} (ary : ndarray A) v coords dims c d S :
  nd_shape (two_de ary) = c :: d :: S →
  warnings (numpy_to_data_array ary v coords dims) =
    chains_warning c d ++
    warnings (generate_dims_coords S v dims coords (Some ["chain"; "draw"])).
Proof.
  intros Hshape.
  destruct (generate_dims_coords_sizes S v dims coords (Some ["chain"; "draw"]))
    as (ws & dims1 & coords1 & Hgdc & _).
  rewrite (numpy_to_data_array_run _ _ _ _ _ _ _ _ _ _ Hshape Hgdc).
  by rewrite Hgdc.
Qed.


(** ** [make_attrs] *)




Example make_attrs_caller_wins :
  make_attrs (mk_environment "2020-01-01T00:00:00" (λ _, None))
             (Some {[ "created_at" := AStr "then" ]})
             (Some (mk_library "pymc3" (Some "3.8")))
    !! "created_at" = Some (AStr "then").
Proof. by vm_compute. Qed.

Example make_attrs_library :
  let attrs := make_attrs (mk_environment "2020-01-01T00:00:00" (λ _, None)) None
                          (Some (mk_library "pymc3" (Some "3.8"))) in
  attrs !! "created_at" = Some (AStr "2020-01-01T00:00:00") ∧
  attrs !! "inference_library" = Some (AStr "pymc3") ∧
  attrs !! "inference_library_version" = Some (AStr "3.8") ∧
  size attrs = 3.
Proof. split_and!; vm_compute; reflexivity. Qed.

(** ** [dict_to_dataset] *)

Lemma setitem_fresh {V} key (v : V) (d : list (string * V)) :
  key ∉ d.*1 → setitem key v d = d ++ [(key, v)].
Proof.
  induction d as [|[k v'] d IH]; intros Hfresh; [done|].
  simpl in *. apply not_elem_of_cons in Hfresh as [Hne Hfresh].
  rewrite bool_decide_eq_false_2 by done. by rewrite IH.
Qed.

Lemma label_items_Ok {A} (items : list (string * ndarray A)) coords dims acc las :
  NoDup (acc.*1 ++ items.*1) →
  Forall2 (λ kv la, outcome (label_entry coords dims kv) = Ok la) items las →
  label_items items coords dims acc =
    (concat ((λ kv, warnings (label_entry coords dims kv)) <$> items),
     Ok (acc ++ zip items.*1 las)).
Proof.
  intros Hnodup Hcalls. revert acc Hnodup.
  induction Hcalls as [|[key values] la items las Hcall Hcalls IH];
    intros acc Hnodup.
  - simpl. by rewrite app_nil_r.
  - simpl in *. unfold label_entry, outcome, warnings in *. simpl in *.
    destruct (numpy_to_data_array values key coords (dims !! key))
      as [ws r] eqn:Hrun.
    simpl in Hcall. subst r. rewrite bind_Ok.
    apply NoDup_app in Hnodup as (Hacc & Hdisj & Hitems).
    apply NoDup_cons in Hitems as [Hkey Hitems].
    assert (Hfresh : key ∉ acc.*1).
    { intros Hin. apply (Hdisj key Hin). apply list_elem_of_here. }
    rewrite setitem_fresh by done.
    rewrite IH.
    + simpl. by rewrite <- app_assoc.
    + rewrite fmap_app. simpl. rewrite <- app_assoc. simpl.
      apply NoDup_app. split_and!; [done| |by apply NoDup_cons].
      intros k Hk [->|Hin]%elem_of_cons; [done|].
      apply (Hdisj k Hk). by apply list_elem_of_further.
Qed.

Lemma label_items_calls {A} (items : list (string * ndarray A)) coords dims
    acc ws vars :
  label_items items coords dims acc = (ws, Ok vars) →
  ∃ las, Forall2 (λ kv la, outcome (label_entry coords dims kv) = Ok la) items las.
Proof.
  revert acc ws. induction items as [|[key values] items IH]; intros acc ws.
  - exists []. constructor.
  - simpl. unfold label_entry, outcome. simpl.
    destruct (numpy_to_data_array values key coords (dims !! key))
      as [ws1 [la|e]] eqn:Hrun; [|done].
    rewrite bind_Ok.
    destruct (label_items items coords dims (setitem key la acc))
      as [ws2 r] eqn:Hrest.
    simpl. intros [= _ ->].
    destruct (IH _ _ Hrest) as [las Hlas].
    exists (la :: las). constructor; [|done]. simpl. by rewrite Hrun.
Qed.

Lemma dict_to_dataset_run {A} env (data : list (string * ndarray A))
    attrs library coords dims las :
  NoDup data.*1 →
  Forall2 (λ kv la, outcome (label_entry coords (default ∅ dims) kv) = Ok la)
          data las →
  dict_to_dataset env data attrs library coords dims =
    (concat ((λ kv, warnings (label_entry coords (default ∅ dims) kv)) <$> data),
     Ok (mk_Dataset (zip data.*1 las) (make_attrs env attrs library))).
Proof.
  intros Hnodup Hcalls. unfold dict_to_dataset.
  rewrite (label_items_Ok data coords (default ∅ dims) [] las) by done.
  rewrite bind_Ok. simpl. by rewrite app_nil_r.
Qed.

(** C9: [dict_to_dataset] calls [numpy_to_data_array] once for every entry
    [(name, values)] of [data], in the order of [data], with
    [var_name=name], the one [coords] of the call and [dims.get(name)].
    When these calls return, the dataset holds their results under the
    names of [data] in the order of [data], and the warnings of the whole
    are the warnings of the calls, each once, in that order; and a dataset
    is returned only when every such call returns. *)
Theorem dict_to_dataset_spec {A} env (data : list (string * ndarray A))
    attrs library coords dims :
  NoDup data.*1 →
  (∀ las,
     Forall2 (λ kv la,
                outcome (numpy_to_data_array kv.2 kv.1 coords
                           (default ∅ dims !! kv.1)) = Ok la) data las →
     dict_to_dataset env data attrs library coords dims =
       (concat ((λ kv, warnings (numpy_to_data_array kv.2 kv.1 coords
                                   (default ∅ dims !! kv.1))) <$> data),
        Ok (mk_Dataset (zip data.*1 las) (make_attrs env attrs library))) ∧
     (zip data.*1 las).*1 = data.*1) ∧
  (∀ ds,
     outcome (dict_to_dataset env data attrs library coords dims) = Ok ds →
     ∃ las,
       Forall2 (λ kv la,
                  outcome (numpy_to_data_array kv.2 kv.1 coords
                             (default ∅ dims !! kv.1)) = Ok la) data las ∧
       data_vars ds = zip data.*1 las ∧
       (data_vars ds).*1 = data.*1).
Proof.
  intros Hnodup.
  assert (Hkeys : ∀ las,
            Forall2 (λ kv la, outcome (label_entry coords (default ∅ dims) kv) = Ok la)
                    data las →
            (zip data.*1 las).*1 = data.*1).
  { intros las Hcalls. apply fst_zip.
    rewrite length_fmap. by rewrite (Forall2_length _ _ _ Hcalls). }
  split.
  - intros las Hcalls. split; [by apply dict_to_dataset_run | by apply Hkeys].
  - intros ds Hds. unfold dict_to_dataset in Hds.
    destruct (label_items data coords (default ∅ dims) []) as [ws [vars|e]] eqn:Hrun;
      [|done].
    destruct (label_items_calls _ _ _ _ _ _ Hrun) as [las Hcalls].
    exists las. split; [done|].
    rewrite (label_items_Ok data coords (default ∅ dims) [] las) in Hrun by done.
    injection Hrun as _ <-.
    rewrite bind_Ok in Hds. unfold outcome in Hds. simpl in Hds.
    injection Hds as <-. simpl. split; [done | by apply Hkeys].
Qed.

(** ** Coordinates of the wrong length *)

(** A coordinate of the caller under a name of the inferred dims is in the
    coords that [generate_dims_coords] returns. *)
Lemma generate_dims_coords_keeps shape v dims (coords : CoordSpec) default_dims
    ws (dims1 : DimList) (coords1 : CoordSpec) name cs :
  generate_dims_coords shape v dims (Some coords) default_dims =
    (ws, Ok (dims1, coords1)) →
  coords !! name = Some cs →
  Some name ∈ dims1 →
  coords1 !! name = Some cs.
Proof.
  rewrite generate_dims_coords_eq. intros [= _ <- <-] Hcs Hin.
  rewrite lookup_used_coords, decide_True by done.
  by apply filled_coords_keeps.
Qed.

(** A coordinate under a name that is not in the inferred dims is dropped
    by the comprehension that closes [generate_dims_coords]. *)
Lemma generate_dims_coords_drops shape v dims coords default_dims
    ws (dims1 : DimList) (coords1 : CoordSpec) name :
  generate_dims_coords shape v dims coords default_dims =
    (ws, Ok (dims1, coords1)) →
  Some name ∉ dims1 →
  coords1 !! name = None.
Proof.
  rewrite generate_dims_coords_eq. intros [= _ <- <-] Hin.
  by rewrite lookup_used_coords, decide_False.
Qed.

Lemma default_coord_keeps name n (coords : CoordSpec) key c :
  coords !! key = Some c → default_coord name n coords !! key = Some c.
Proof. intros Hc. by rewrite lookup_default_coord, Hc. Qed.

Lemma coordinate_misfit {A} (ary : ndarray A) v (coords : CoordSpec) dims
    c d S ws (dims1 : DimList) (coords1 : CoordSpec) i name n cs :
  nd_shape (two_de ary) = c :: d :: S →
  generate_dims_coords S v dims (Some coords) (Some ["chain"; "draw"]) =
    (ws, Ok (dims1, coords1)) →
  coords !! name = Some cs →
  Some name ∈ dims1 →
  normalize_dims dims1 !! i = Some (Some name) →
  nd_shape (two_de ary) !! i = Some n →
  length cs ≠ n →
  ∃ e, outcome (numpy_to_data_array ary v (Some coords) dims) = Err e ∧
       (e = CoordinateLengthError ∨ e = DimsRankError ∨ ∃ key, e = KeyError key) ∧
       (∀ items,
          index_coords (default_coord "draw" d (default_coord "chain" c coords1))
                       (normalize_dims dims1) = Ok items →
          length (normalize_dims dims1) = length (nd_shape (two_de ary)) →
          e = CoordinateLengthError).
Proof.
  intros Hshape Hgdc Hcs Hin Hi Hn Hne.
  rewrite (numpy_to_data_array_run _ _ _ _ _ _ _ _ _ _ Hshape Hgdc).
  unfold outcome. simpl.
  set (C := default_coord "draw" d (default_coord "chain" c coords1)).
  assert (HC : C !! name = Some cs).
  { unfold C. do 2 apply default_coord_keeps.
    by eapply generate_dims_coords_keeps. }
  destruct (index_coords C (normalize_dims dims1)) as [items|e] eqn:Hitems.
  - apply index_coords_Ok in Hitems as (names & Hnames & Hall & ->).
    rewrite rbind_Ok, items_of_names.
    assert (Hiname : names !! i = Some name).
    { rewrite Hnames, list_lookup_fmap in Hi.
      destruct (names !! i); by simplify_eq/=. }
    destruct (decide (length names = length (nd_shape (two_de ary)))) as [Hlen|Hlen].
    + exists CoordinateLengthError. split_and!; [|by left|done].
      apply (DataArray_misfit _ _ _ i name n cs); [done..| |done].
      rewrite lookup_dict_of_items, decide_True; [done| |done].
      apply list_elem_of_lookup. by exists i.
    + exists DimsRankError. split_and!; [|by right; left|].
      * unfold DataArray. by rewrite bool_decide_eq_false_2.
      * intros _ _ Hlen'. rewrite Hnames, length_fmap in Hlen'. done.
  - exists e. split_and!; [done| |done].
    do 2 right. by eapply index_coords_KeyError.
Qed.

Lemma dict_to_dataset_fails {A} env (data : list (string * ndarray A))
    attrs library coords dims kv e :
  kv ∈ data →
  outcome (label_entry coords (default ∅ dims) kv) = Err e →
  ∃ e', outcome (dict_to_dataset env data attrs library coords dims) = Err e'.
Proof.
  intros Hin Hfail. unfold dict_to_dataset.
  destruct (label_items data coords (default ∅ dims) []) as [ws [vars|e']] eqn:Hrun.
  - destruct (label_items_calls _ _ _ _ _ _ Hrun) as [las Hcalls].
    apply list_elem_of_lookup in Hin as [i Hi].
    destruct (Forall2_lookup_l _ _ _ _ _ Hcalls Hi) as (la & _ & Hla).
    congruence.
  - by exists e'.
Qed.

(** C6, as the code has it: when the caller supplies a coordinate sequence
    under a name that the inference step returns in its dims, and the length
    of the sequence is not the length of the axis that name indexes in the
    final dims, [numpy_to_data_array] returns no labeled array.  It fails
    with CoordinateLengthError at construction time when every final name
    has a coordinate and there are as many final names as axes; otherwise it
    fails before that, on the name without a coordinate or on the number of
    names.  A coordinate sequence of length 3 for a free axis of length 4
    raises CoordinateLengthError.  When [numpy_to_data_array] fails for an
    entry of [data], [dict_to_dataset] returns no dataset. *)
Theorem coordinate_length_mismatch :
  (∀ A (ary : ndarray A) var_name (coords : CoordSpec) dims
     n_chains n_samples shape ws (dims1 : DimList) (coords1 : CoordSpec)
     i name n cs,
     nd_shape (two_de ary) = n_chains :: n_samples :: shape →
     generate_dims_coords shape var_name dims (Some coords)
                          (Some ["chain"; "draw"]) = (ws, Ok (dims1, coords1)) →
     coords !! name = Some cs →
     Some name ∈ dims1 →
     normalize_dims dims1 !! i = Some (Some name) →
     nd_shape (two_de ary) !! i = Some n →
     length cs ≠ n →
     ∃ e, outcome (numpy_to_data_array ary var_name (Some coords) dims) = Err e ∧
          (e = CoordinateLengthError ∨ e = DimsRankError ∨
           ∃ key, e = KeyError key) ∧
          (∀ items,
             index_coords
               (default_coord "draw" n_samples
                  (default_coord "chain" n_chains coords1))
               (normalize_dims dims1) = Ok items →
             length (normalize_dims dims1) = length (nd_shape (two_de ary)) →
             e = CoordinateLengthError)) ∧
  (∀ A (data : list A),
     outcome (numpy_to_data_array (mk_ndarray [2; 100; 4] data) "theta"
                (Some {[ "school" := [LStr "a"; LStr "b"; LStr "c"] ]})
                (Some [Some "school"])) = Err CoordinateLengthError) ∧
  (∀ A env (data : list (string * ndarray A)) attrs library coords dims
     key values e,
     (key, values) ∈ data →
     outcome (numpy_to_data_array values key coords (default ∅ dims !! key)) =
       Err e →
     ∃ e', outcome (dict_to_dataset env data attrs library coords dims) = Err e').
Proof.
  split_and!.
  - intros. by eapply coordinate_misfit.
  - intros A data. by vm_compute.
  - intros A env data attrs library coords dims key values e Hin Hfail.
    by eapply (dict_to_dataset_fails _ _ _ _ _ _ (key, values)).
Qed.

(** C6 as stated fails: the caller's coordinate for ["a"] has 3 entries,
    ["a"] indexes axis 2, of length 8, and yet the failure is not
    CoordinateLengthError: one name too many was supplied, and the [KeyError]
    of that name is raised before the array is constructed. *)
Lemma coordinate_length_mismatch_counterexample :
  normalize_dims [Some "a"; Some "b"] !! 2 = Some (Some "a") ∧
  nd_shape (two_de (mk_ndarray [4; 100; 8] ([] : list Z))) !! 2 = Some 8 ∧
  outcome (numpy_to_data_array (mk_ndarray [4; 100; 8] ([] : list Z)) "theta"
             (Some {[ "a" := [LInt 0; LInt 1; LInt 2] ]})
             (Some [Some "a"; Some "b"])) = Err (KeyError (Some "b")) ∧
  outcome (numpy_to_data_array (mk_ndarray [4; 100; 8] ([] : list Z)) "theta"
             (Some {[ "a" := [LInt 0; LInt 1; LInt 2] ]})
             (Some [Some "a"; Some "b"])) ≠ Err CoordinateLengthError.
Proof. split_and!; by vm_compute. Qed.

(** A coordinate the caller supplies for ["chain"] while ["chain"] is not
    in the supplied dims is dropped by [generate_dims_coords] and replaced
    by the default range: its length is never compared with the axis. *)
Example chain_coordinate_dropped :
  numpy_to_data_array (mk_ndarray [4; 100] ([] : list Z)) "data"
    (Some {[ "chain" := [LStr "a"; LStr "b"; LStr "c"] ]}) None =
  ([], Ok (mk_LabeledArray (mk_ndarray [4; 100] []) ["chain"; "draw"]
             (<["chain" := arange 4]> (<["draw" := arange 100]> ∅)))).
Proof. by vm_compute. Qed.

(** ** More names than axes *)

Lemma filter_length_pointwise {X} (P : X → bool) (l1 l2 : list X) :
  length l1 = length l2 →
  (∀ i x y, l1 !! i = Some x → l2 !! i = Some y → P x = P y) →
  length (List.filter P l1) = length (List.filter P l2).
Proof.
  revert l2. induction l1 as [|x l1 IH]; intros [|y l2] Hlen Hsame; try done.
  simpl in *. rewrite (Hsame 0 x y eq_refl eq_refl).
  assert (length (List.filter P l1) = length (List.filter P l2)) as Hrec.
  { apply IH; [lia|]. intros i x' y' Hx Hy. by apply (Hsame (S i)). }
  destruct (P y); simpl; by rewrite Hrec.
Qed.

Lemma not_default_auto v i :
  not_default ["chain"; "draw"] (Some (auto_dim_name v i)) = true.
Proof.
  unfold not_default. apply bool_decide_eq_true.
  intros (name & [= Hname] & Hin)%list_elem_of_fmap.
  apply elem_of_cons in Hin as [->|Hin].
  - by apply auto_dim_name_not_chain in Hname.
  - apply list_elem_of_singleton in Hin as ->.
    by apply auto_dim_name_not_draw in Hname.
Qed.

(** Naming the axes does not change how many entries are not reserved. *)
Lemma extra_dims_named_dims v k dims :
  k ≤ length dims →
  extra_dims ["chain"; "draw"] (named_dims v k dims) =
    extra_dims ["chain"; "draw"] dims.
Proof.
  intros Hk. unfold extra_dims. apply filter_length_pointwise.
  - rewrite length_named_dims. lia.
  - intros i x y. rewrite lookup_named_dims. case_decide as Hi.
    + intros [= <-] Hy. unfold dim_name_at. rewrite Hy.
      destruct y as [name|]; [done|]. by rewrite not_default_auto.
    + intros Hx Hy. congruence.
Qed.

Lemma two_le_length {X} (l : list X) x y :
  x ∈ l → y ∈ l → x ≠ y → 2 ≤ length l.
Proof.
  intros Hx Hy Hne. destruct l as [|a [|b l]]; simpl; [|exfalso|lia].
  - by apply elem_of_nil in Hx.
  - apply list_elem_of_singleton in Hx, Hy. congruence.
Qed.

Lemma elem_of_filter_bool {X} (P : X → bool) (l : list X) x :
  x ∈ l → P x = true → x ∈ List.filter P l.
Proof.
  intros Hin HP. apply list_elem_of_In, filter_In.
  split; [by apply list_elem_of_In | done].
Qed.

(** A list of names that holds both reserved names has two entries more
    than it has entries that are not reserved. *)
Lemma extra_dims_reserved (l : DimList) :
  Some "chain" ∈ l → Some "draw" ∈ l →
  extra_dims ["chain"; "draw"] l + 2 ≤ length l.
Proof.
  intros Hchain Hdraw. unfold extra_dims.
  rewrite <- (filter_length (not_default ["chain"; "draw"]) l).
  apply Nat.add_le_mono_l.
  apply (two_le_length _ (Some "chain") (Some "draw")); [| |done].
  - by apply elem_of_filter_bool.
  - by apply elem_of_filter_bool.
Qed.

Lemma extra_dims_normalize (l : DimList) :
  extra_dims ["chain"; "draw"] l ≤ extra_dims ["chain"; "draw"] (normalize_dims l).
Proof.
  unfold normalize_dims, prepend_missing, extra_dims.
  repeat case_bool_decide; simpl; lia.
Qed.

(** Inside [numpy_to_data_array], a call whose inference step warns of more
    names than axes returns no labeled array: the final dims are more than
    the axes, or one of them has no coordinate. *)
Lemma numpy_to_data_array_extra_dims {A} (ary : ndarray A) v coords dims c d S :
  nd_shape (two_de ary) = c :: d :: S →
  length S < extra_dims ["chain"; "draw"] (default [] dims) →
  ∃ e, outcome (numpy_to_data_array ary v coords dims) = Err e ∧
       (e = DimsRankError ∨ ∃ key, e = KeyError key).
Proof.
  intros Hshape Hextra.
  pose proof (generate_dims_coords_eq S v dims coords (Some ["chain"; "draw"])) as Hgdc.
  rewrite (numpy_to_data_array_run _ _ _ _ _ _ _ _ _ _ Hshape Hgdc).
  unfold outcome. simpl.
  set (D := named_dims v (length S) (default [] dims)).
  assert (Hlong : length S + 2 < length (normalize_dims D)).
  { destruct (normalize_dims_reserved D) as [Hchain Hdraw].
    pose proof (extra_dims_reserved _ Hchain Hdraw) as Hlen.
    pose proof (extra_dims_normalize D) as Hnorm.
    assert (length S ≤ length (default [] dims)) as Hk.
    { unfold extra_dims in Hextra.
      pose proof (filter_length_le (not_default ["chain"; "draw"]) (default [] dims)).
      lia. }
    unfold D in Hnorm. rewrite (extra_dims_named_dims v _ _ Hk) in Hnorm.
    fold D in Hnorm. lia. }
  destruct (index_coords _ (normalize_dims D)) as [items|e] eqn:Hitems.
  - apply index_coords_Ok in Hitems as (names & Hnames & _ & ->).
    rewrite rbind_Ok, items_of_names. exists DimsRankError. split; [|by left].
    unfold DataArray. rewrite bool_decide_eq_false_2; [done|].
    rewrite Hshape. rewrite Hnames, length_fmap in Hlong. simpl. lia.
  - exists e. split; [done|]. right. by eapply index_coords_KeyError.
Qed.

Example extra_dims_with_coordinates :
  numpy_to_data_array (mk_ndarray [4; 100] ([] : list Z)) "x"
    (Some {[ "a" := [LInt 0] ]}) (Some [Some "a"]) =
  ([MoreDimsThanShape "x" 1 0 "chain,draw, "], Err DimsRankError).
Proof. by vm_compute. Qed.

(** ** The store model *)

Lemma heap_bind_run {A B} (m : Heap.ST A) (f : A → Heap.ST B) s :
  (m ≫= f) s =
    match m s with
    | (Ok a, s') => f a s'
    | (Err e, s') => (Err e, s')
    end.
Proof. done. Qed.

Lemma heap_read_list_run s r l :
  Heap.objects s !! r = Some (Heap.ListObj l) → Heap.read_list r s = (Ok l, s).
Proof. unfold Heap.read_list. by intros ->. Qed.

Lemma heap_read_dict_run s r d :
  Heap.objects s !! r = Some (Heap.DictObj d) → Heap.read_dict r s = (Ok d, s).
Proof. unfold Heap.read_dict. by intros ->. Qed.

Lemma heap_list_len_run s r l :
  Heap.objects s !! r = Some (Heap.ListObj l) →
  Heap.list_len r s = (Ok (length l), s).
Proof.
  intros Hr. unfold Heap.list_len.
  by rewrite heap_bind_run, (heap_read_list_run _ _ _ Hr).
Qed.

Lemma heap_list_getitem_run s r l idx x :
  Heap.objects s !! r = Some (Heap.ListObj l) → l !! idx = Some x →
  Heap.list_getitem r idx s = (Ok x, s).
Proof.
  intros Hr Hx. unfold Heap.list_getitem.
  by rewrite heap_bind_run, (heap_read_list_run _ _ _ Hr), Hx.
Qed.

Lemma heap_list_append_run s r l x :
  Heap.objects s !! r = Some (Heap.ListObj l) →
  Heap.list_append r x s =
    (Ok tt, Heap.mk_state (<[r := Heap.ListObj (l ++ [x])]> (Heap.objects s))
                          (Heap.emitted s)).
Proof.
  intros Hr. unfold Heap.list_append.
  by rewrite heap_bind_run, (heap_read_list_run _ _ _ Hr).
Qed.

Lemma heap_list_setitem_run s r l idx x :
  Heap.objects s !! r = Some (Heap.ListObj l) → idx < length l →
  Heap.list_setitem r idx x s =
    (Ok tt, Heap.mk_state (<[r := Heap.ListObj (<[idx := x]> l)]> (Heap.objects s))
                          (Heap.emitted s)).
Proof.
  intros Hr Hidx. unfold Heap.list_setitem.
  rewrite heap_bind_run, (heap_read_list_run _ _ _ Hr).
  by rewrite (proj2 (Nat.ltb_lt _ _) Hidx).
Qed.

Lemma heap_dict_contains_run s r d key :
  Heap.objects s !! r = Some (Heap.DictObj d) →
  Heap.dict_contains r key s = (Ok (has_key d key), s).
Proof.
  intros Hr. unfold Heap.dict_contains.
  by rewrite heap_bind_run, (heap_read_dict_run _ _ _ Hr).
Qed.

Lemma heap_dict_setitem_run s r d key c :
  Heap.objects s !! r = Some (Heap.DictObj d) →
  Heap.dict_setitem r key c s =
    (Ok tt, Heap.mk_state (<[r := Heap.DictObj (<[key := c]> d)]> (Heap.objects s))
                          (Heap.emitted s)).
Proof.
  intros Hr. unfold Heap.dict_setitem.
  by rewrite heap_bind_run, (heap_read_dict_run _ _ _ Hr).
Qed.

Lemma updated_refl s dims coords dv cv :
  Heap.objects s !! dims = Some (Heap.ListObj dv) →
  Heap.objects s !! coords = Some (Heap.DictObj cv) →
  updated s dims coords dv cv s.
Proof.
  intros Hd Hc. split; [|done].
  rewrite (insert_id _ dims) by done. by rewrite insert_id.
Qed.

Lemma updated_lookup s dims coords dv cv s' :
  dims ≠ coords →
  updated s dims coords dv cv s' →
  Heap.objects s' !! dims = Some (Heap.ListObj dv) ∧
  Heap.objects s' !! coords = Some (Heap.DictObj cv).
Proof.
  intros Hne [-> _]. split.
  - by rewrite lookup_insert_ne, lookup_insert_eq.
  - by rewrite lookup_insert_eq.
Qed.

Lemma updated_trans s dims coords dv1 cv1 s1 dv2 cv2 s2 :
  dims ≠ coords →
  updated s dims coords dv1 cv1 s1 →
  updated s1 dims coords dv2 cv2 s2 →
  updated s dims coords dv2 cv2 s2.
Proof.
  intros Hne [Ho1 He1] [Ho2 He2]. split; [|congruence].
  rewrite Ho2, Ho1. apply map_eq. intros r.
  destruct (decide (r = coords)) as [->|?]; [by rewrite !lookup_insert_eq|].
  destruct (decide (r = dims)) as [->|?]; by simplify_map_eq.
Qed.

Lemma heap_mret_run {A} (a : A) s : (mret a : Heap.ST A) s = (Ok a, s).
Proof. done. Qed.

Lemma updated_list s dims coords dv cv :
  dims ≠ coords →
  Heap.objects s !! coords = Some (Heap.DictObj cv) →
  updated s dims coords dv cv
    (Heap.mk_state (<[dims := Heap.ListObj dv]> (Heap.objects s)) (Heap.emitted s)).
Proof.
  intros Hne Hc. split; [|done]. simpl.
  by rewrite (insert_id _ coords) by (by rewrite lookup_insert_ne).
Qed.

Lemma updated_dict s dims coords dv cv :
  Heap.objects s !! dims = Some (Heap.ListObj dv) →
  updated s dims coords dv cv
    (Heap.mk_state (<[coords := Heap.DictObj cv]> (Heap.objects s)) (Heap.emitted s)).
Proof.
  intros Hd. split; [|done]. simpl. by rewrite (insert_id _ dims).
Qed.

(** The second half of a turn: the coordinate of the axis. *)
Lemma heap_axis_coord s dims coords idx n dims1 cv name :
  Heap.objects s !! dims = Some (Heap.ListObj dims1) →
  Heap.objects s !! coords = Some (Heap.DictObj cv) →
  dims1 !! idx = Some (Some name) →
  ∃ s',
    (Heap.list_getitem dims idx ≫= λ dim_name : option string,
       match dim_name with
       | Some dim_name0 =>
           Heap.dict_contains coords dim_name0 ≫= λ known : bool,
             if known then mret ()
             else Heap.dict_setitem coords dim_name0 (arange n)
       | None => Heap.throw (KeyError None)
       end) s = (Ok (), s') ∧
    updated s dims coords dims1
      (if has_key cv name then cv else <[name := arange n]> cv) s'.
Proof.
  intros Hd Hc Hname.
  rewrite heap_bind_run, (heap_list_getitem_run _ _ _ _ _ Hd Hname).
  rewrite heap_bind_run, (heap_dict_contains_run _ _ _ _ Hc).
  destruct (has_key cv name).
  - exists s. split; [done|]. by apply updated_refl.
  - rewrite (heap_dict_setitem_run _ _ _ _ _ Hc).
    eexists. split; [done|]. by apply updated_dict.
Qed.

(** One turn of the loop on the store does what [axis_step] does on the
    values. *)
Lemma heap_axis_step s dims coords v idx n dv cv dv' cv' :
  Heap.objects s !! dims = Some (Heap.ListObj dv) →
  Heap.objects s !! coords = Some (Heap.DictObj cv) →
  axis_step v idx n (dv, cv) = Ok (dv', cv') →
  ∃ s', Heap.axis_step v idx n dims coords s = (Ok tt, s') ∧
        updated s dims coords dv' cv' s'.
Proof.
  intros Hd Hc Hpure.
  assert (Hne : dims ≠ coords) by (intros ->; rewrite Hd in Hc; done).
  unfold axis_step in Hpure. unfold Heap.axis_step.
  rewrite heap_bind_run, (heap_list_len_run _ _ _ Hd).
  destruct (length dv <? idx + 1) eqn:Hlt.
  - simpl in Hpure. rewrite heap_bind_run, heap_mret_run.
    rewrite heap_bind_run, heap_bind_run, (heap_list_len_run _ _ _ Hd), Hlt.
    rewrite (heap_list_append_run _ _ _ _ Hd).
    set (s1 := Heap.mk_state _ _).
    destruct ((dv ++ [Some (auto_dim_name v idx)]) !! idx)
      as [[name|]|] eqn:Hname; [|done..].
    injection Hpure as <- <-.
    destruct (heap_axis_coord s1 dims coords idx n
                (dv ++ [Some (auto_dim_name v idx)]) cv name)
      as (s' & Hrun & Hupd); [by apply lookup_insert_eq| |done|].
    { unfold s1. simpl. by rewrite lookup_insert_ne. }
    exists s'. split; [done|].
    eapply updated_trans; [done| |done]. by apply updated_list.
  - assert (Hidx : idx < length dv) by (apply Nat.ltb_ge in Hlt; lia).
    destruct (lookup_lt_is_Some_2 dv idx Hidx) as [x Hx].
    rewrite heap_bind_run, heap_bind_run.
    rewrite (heap_list_getitem_run _ _ _ _ _ Hd Hx), heap_mret_run.
    rewrite Hx in Hpure. simpl in Hpure.
    destruct x as [name|].
    + rewrite bool_decide_eq_false_2 in Hpure by done.
      rewrite bool_decide_eq_false_2 by done.
      rewrite Hx in Hpure. injection Hpure as <- <-.
      rewrite heap_bind_run, heap_mret_run.
      by apply heap_axis_coord.
    + rewrite bool_decide_eq_true_2 in Hpure by done.
      rewrite bool_decide_eq_true_2 by done.
      rewrite heap_bind_run, heap_bind_run, (heap_list_len_run _ _ _ Hd), Hlt.
      rewrite (heap_list_setitem_run _ _ _ _ _ Hd Hidx).
      set (s1 := Heap.mk_state _ _).
      rewrite list_lookup_insert_eq in Hpure by done.
      injection Hpure as <- <-.
      destruct (heap_axis_coord s1 dims coords idx n
                  (<[idx:=Some (auto_dim_name v idx)]> dv) cv (auto_dim_name v idx))
        as (s' & Hrun & Hupd); [by apply lookup_insert_eq| | |].
      { unfold s1. simpl. by rewrite lookup_insert_ne. }
      { by apply list_lookup_insert_eq. }
      exists s'. split; [done|].
      eapply updated_trans; [done| |done]. by apply updated_list.
Qed.

Lemma heap_axes_loop s dims coords v idx shape dv cv dv' cv' :
  Heap.objects s !! dims = Some (Heap.ListObj dv) →
  Heap.objects s !! coords = Some (Heap.DictObj cv) →
  axes_loop v idx shape (dv, cv) = Ok (dv', cv') →
  ∃ s', Heap.axes_loop v idx shape dims coords s = (Ok tt, s') ∧
        updated s dims coords dv' cv' s'.
Proof.
  revert s idx dv cv. induction shape as [|n shape IH]; intros s idx dv cv Hd Hc.
  - simpl. intros [= <- <-]. exists s. split; [done|]. by apply updated_refl.
  - simpl. destruct (axis_step v idx n (dv, cv)) as [[dv1 cv1]|e] eqn:Hstep; [|done].
    rewrite rbind_Ok. intros Hrest.
    assert (Hne : dims ≠ coords) by (intros ->; rewrite Hd in Hc; done).
    destruct (heap_axis_step _ _ _ _ _ _ _ _ _ _ Hd Hc Hstep) as (s1 & Hrun1 & Hupd1).
    destruct (updated_lookup _ _ _ _ _ _ Hne Hupd1) as [Hd1 Hc1].
    destruct (IH _ _ _ _ Hd1 Hc1 Hrest) as (s' & Hrun & Hupd).
    exists s'. split; [|by eapply updated_trans].
    by rewrite heap_bind_run, Hrun1.
Qed.

Lemma heap_alloc_run s o :
  ∃ r s', Heap.alloc o s = (Ok r, s') ∧
          (r ∉ dom (Heap.objects s)) ∧
          Heap.objects s' = <[r := o]> (Heap.objects s) ∧
          Heap.objects s ⊆ Heap.objects s' ∧
          Heap.emitted s' = Heap.emitted s.
Proof.
  unfold Heap.alloc. do 2 eexists. split; [done|].
  pose proof (is_fresh (dom (Heap.objects s))) as Hfresh.
  split_and!; [done..| |done].
  simpl. apply insert_subseteq. by apply not_elem_of_dom.
Qed.

Lemma heap_deepcopy_run s r o :
  Heap.objects s !! r = Some o →
  ∃ r' s', Heap.deepcopy r s = (Ok r', s') ∧
           (r' ∉ dom (Heap.objects s)) ∧
           Heap.objects s' = <[r' := o]> (Heap.objects s) ∧
           Heap.objects s ⊆ Heap.objects s' ∧
           Heap.emitted s' = Heap.emitted s.
Proof. intros Hr. unfold Heap.deepcopy. rewrite Hr. apply heap_alloc_run. Qed.

Lemma heap_list_arg_run s r v :
  list_arg s r v →
  ∃ r0 s',
    match r with Some r => mret r | None => Heap.alloc (Heap.ListObj []) end s =
      (Ok r0, s') ∧
    Heap.objects s' !! r0 = Some (Heap.ListObj (default [] v)) ∧
    Heap.objects s ⊆ Heap.objects s' ∧
    Heap.emitted s' = Heap.emitted s.
Proof.
  destruct r as [r|], v as [l|]; try done; simpl; intros Harg.
  - by exists r, s.
  - destruct (heap_alloc_run s (Heap.ListObj [])) as (r & s' & Hrun & _ & Ho & ? & ?).
    exists r, s'. split_and!; [done| |done..]. by rewrite Ho, lookup_insert_eq.
Qed.

Lemma heap_dict_arg_run s r v :
  dict_arg s r v →
  ∃ r0 s',
    match r with Some r => mret r | None => Heap.alloc (Heap.DictObj ∅) end s =
      (Ok r0, s') ∧
    Heap.objects s' !! r0 = Some (Heap.DictObj (default ∅ v)) ∧
    Heap.objects s ⊆ Heap.objects s' ∧
    Heap.emitted s' = Heap.emitted s.
Proof.
  destruct r as [r|], v as [d|]; try done; simpl; intros Harg.
  - by exists r, s.
  - destruct (heap_alloc_run s (Heap.DictObj ∅)) as (r & s' & Hrun & _ & Ho & ? & ?).
    exists r, s'. split_and!; [done| |done..]. by rewrite Ho, lookup_insert_eq.
Qed.

Lemma heap_warn_run (b : bool) w s :
  ∃ s', (if b then Heap.warn w else mret ()) s = (Ok (), s') ∧
        Heap.objects s' = Heap.objects s ∧
        Heap.emitted s' = Heap.emitted s ++ (if b then [w] else []).
Proof.
  destruct b.
  - by eexists.
  - exists s. by rewrite app_nil_r.
Qed.

Lemma not_in_dom_mono (m1 m2 : gmap Heap.loc Heap.object) r :
  m1 ⊆ m2 → r ∉ dom m2 → r ∉ dom m1.
Proof. intros Hsub Hr Hin. apply Hr. by eapply subseteq_dom. Qed.

(** The function on the store returns new objects that hold what the
    function on values returns, emits the same warnings and leaves every
    object of the store it was given as it was. *)
Lemma heap_generate_dims_coords s shape v d c dd dv cv :
  list_arg s d dv → dict_arg s c cv →
  ∃ rd rc s' (dims' : DimList) (coords' : CoordSpec),
    Heap.generate_dims_coords shape v d c dd s = (Ok (rd, rc), s') ∧
    outcome (generate_dims_coords shape v dv cv dd) = Ok (dims', coords') ∧
    Heap.objects s' !! rd = Some (Heap.ListObj dims') ∧
    Heap.objects s' !! rc = Some (Heap.DictObj coords') ∧
    Heap.emitted s' =
      Heap.emitted s ++ warnings (generate_dims_coords shape v dv cv dd) ∧
    (rd ∉ dom (Heap.objects s)) ∧ (rc ∉ dom (Heap.objects s)) ∧
    Heap.objects s ⊆ Heap.objects s'.
Proof.
  intros Hd Hc. unfold Heap.generate_dims_coords.
  rewrite generate_dims_coords_eq. unfold outcome, warnings. simpl.
  destruct (heap_list_arg_run s d dv Hd) as (r0 & s1 & Hrun1 & Hr0 & Hsub1 & Hem1).
  rewrite heap_bind_run, Hrun1.
  rewrite heap_bind_run, (heap_read_list_run _ _ _ Hr0).
  rewrite heap_bind_run.
  destruct (heap_warn_run
              (length shape <? extra_dims (default [] dd) (default [] dv))
              (MoreDimsThanShape v (length (default [] dv)) (length shape)
                                 (defaults_text (default [] dd))) s1)
    as (s2 & Hrun2 & Ho2 & Hem2).
  rewrite Hrun2.
  assert (Hc2 : dict_arg s2 c cv).
  { destruct c as [r|], cv as [m|]; try done. simpl in *. rewrite Ho2.
    by eapply lookup_weaken. }
  destruct (heap_dict_arg_run s2 c cv Hc2) as (r1 & s3 & Hrun3 & Hr1 & Hsub3 & Hem3).
  rewrite heap_bind_run, Hrun3.
  destruct (heap_deepcopy_run s3 r1 _ Hr1) as (rc0 & s4 & Hrun4 & Hf4 & Ho4 & Hsub4 & Hem4).
  rewrite heap_bind_run, Hrun4.
  assert (Hr0' : Heap.objects s4 !! r0 = Some (Heap.ListObj (default [] dv))).
  { eapply lookup_weaken; [|exact Hsub4]. eapply lookup_weaken; [|exact Hsub3].
    by rewrite Ho2. }
  destruct (heap_deepcopy_run s4 r0 _ Hr0') as (rd & s5 & Hrun5 & Hf5 & Ho5 & Hsub5 & Hem5).
  rewrite heap_bind_run, Hrun5.
  assert (Hrd : Heap.objects s5 !! rd = Some (Heap.ListObj (default [] dv)))
    by (by rewrite Ho5, lookup_insert_eq).
  assert (Hrc0 : Heap.objects s5 !! rc0 = Some (Heap.DictObj (default ∅ cv))).
  { eapply lookup_weaken; [|exact Hsub5]. by rewrite Ho4, lookup_insert_eq. }
  assert (Hne : rd ≠ rc0) by (intros ->; rewrite Hrd in Hrc0; done).
  destruct (heap_axes_loop s5 rd rc0 v 0 shape _ _ _ _ Hrd Hrc0
              (axes_loop_ok v shape (default [] dv) (default ∅ cv)))
    as (s6 & Hrun6 & Hupd6).
  rewrite heap_bind_run, Hrun6.
  destruct (updated_lookup _ _ _ _ _ _ Hne Hupd6) as [Hrd6 Hrc6].
  rewrite heap_bind_run, (heap_read_list_run _ _ _ Hrd6).
  rewrite heap_bind_run, (heap_read_dict_run _ _ _ Hrc6).
  destruct (heap_alloc_run s6
              (Heap.DictObj (used_coords (named_dims v (length shape) (default [] dv))
                 (filled_coords v (default [] dv) shape (default ∅ cv)))))
    as (rc & s7 & Hrun7 & Hf7 & Ho7 & Hsub7 & Hem7).
  rewrite heap_bind_run, Hrun7, heap_mret_run.
  assert (Hsub2 : Heap.objects s ⊆ Heap.objects s2) by (by rewrite Ho2).
  assert (Hsub3' : Heap.objects s ⊆ Heap.objects s3) by (by etrans).
  assert (Hsub4' : Heap.objects s ⊆ Heap.objects s4) by (by etrans).
  assert (Hsub5' : Heap.objects s ⊆ Heap.objects s5) by (by etrans).
  assert (Hrd_fresh : rd ∉ dom (Heap.objects s))
    by (by apply (not_in_dom_mono _ (Heap.objects s4))).
  assert (Hrc0_fresh : rc0 ∉ dom (Heap.objects s))
    by (by apply (not_in_dom_mono _ (Heap.objects s3))).
  assert (Hsub6 : Heap.objects s ⊆ Heap.objects s6).
  { destruct Hupd6 as [-> _].
    apply insert_subseteq_r; [by apply not_elem_of_dom|].
    apply insert_subseteq_r; [by apply not_elem_of_dom|]. done. }
  exists rd, rc, s7. do 2 eexists. split_and!; [done|done| | | |done| |].
  - rewrite Ho7, lookup_insert_ne; [done|].
    intros <-. apply Hf7. apply elem_of_dom. by eexists.
  - by rewrite Ho7, lookup_insert_eq.
  - destruct Hupd6 as [_ Hem6].
    rewrite Hem7, Hem6, Hem5, Hem4, Hem3, Hem2, Hem1. done.
  - eapply not_in_dom_mono; [exact Hsub6 | exact Hf7].
  - by etrans.
Qed.

Lemma list_arg_weaken s s' r v :
  Heap.objects s ⊆ Heap.objects s' → list_arg s r v → list_arg s' r v.
Proof.
  intros Hsub. destruct r as [r|], v as [l|]; try done. simpl.
  intros Hr. by eapply lookup_weaken.
Qed.

Lemma dict_arg_weaken s s' r v :
  Heap.objects s ⊆ Heap.objects s' → dict_arg s r v → dict_arg s' r v.
Proof.
  intros Hsub. destruct r as [r|], v as [d|]; try done. simpl.
  intros Hr. by eapply lookup_weaken.
Qed.

(** The store of the examples: a [dims] list with a gap and a [coords]
    dictionary, as a caller holds them. *)
Example caller_store_lookup :
  Heap.objects
    (Heap.mk_state (<[0 := Heap.ListObj [None; Some "b"]]>
                      (<[1 := Heap.DictObj {[ "b" := [LInt 7; LInt 8] ]}]> ∅)) [])
    !! 0 = Some (Heap.ListObj [None; Some "b"]).
Proof. by vm_compute. Qed.

(** On this store the call returns new objects and leaves the caller's. *)
Example generate_dims_coords_on_store :
  ∃ s',
    Heap.generate_dims_coords [3; 2] "x" (Some 0) (Some 1) None
      (Heap.mk_state (<[0 := Heap.ListObj [None; Some "b"]]>
                        (<[1 := Heap.DictObj {[ "b" := [LInt 7; LInt 8] ]}]> ∅)) [])
      = (Ok (3, 4), s') ∧
    Heap.objects s' !! 0 = Some (Heap.ListObj [None; Some "b"]) ∧
    Heap.objects s' !! 1 = Some (Heap.DictObj {[ "b" := [LInt 7; LInt 8] ]}) ∧
    Heap.objects s' !! 3 = Some (Heap.ListObj [Some "x_dim_0"; Some "b"]) ∧
    Heap.objects s' !! 4 =
      Some (Heap.DictObj (<["x_dim_0" := arange 3]>
                            (<["b" := [LInt 7; LInt 8]]> ∅))).
Proof. eexists. split_and!; by vm_compute. Qed.

(** The loop itself updates the list it is given: run on the caller's own
    references it would change the caller's list. *)
Example axes_loop_updates_in_place :
  ∃ s',
    Heap.axes_loop "x" 0 [3; 2] 0 1
      (Heap.mk_state (<[0 := Heap.ListObj [None; Some "b"]]>
                        (<[1 := Heap.DictObj {[ "b" := [LInt 7; LInt 8] ]}]> ∅)) [])
      = (Ok (), s') ∧
    Heap.objects s' !! 0 = Some (Heap.ListObj [Some "x_dim_0"; Some "b"]).
Proof. eexists. split; by vm_compute. Qed.

(** C8: [generate_dims_coords] does not change what its caller passed: for
    every store and every [dims] list and [coords] dictionary in it, passed
    by reference (or [None]), the call returns, and afterwards the two
    references hold the values they held before, as does every other object
    of the store; the updates are made on the deep copies. *)
Theorem generate_dims_coords_frame s shape var_name dims coords default_dims
    (dv : option DimList) (cv : option CoordSpec) :
  list_arg s dims dv →
  dict_arg s coords cv →
  ∃ res s',
    Heap.generate_dims_coords shape var_name dims coords default_dims s =
      (Ok res, s') ∧
    list_arg s' dims dv ∧
    dict_arg s' coords cv ∧
    (∀ r o, Heap.objects s !! r = Some o → Heap.objects s' !! r = Some o) ∧
    (res.1 ∉ dom (Heap.objects s)) ∧ (res.2 ∉ dom (Heap.objects s)).
Proof.
  intros Hd Hc.
  destruct (heap_generate_dims_coords s shape var_name dims coords default_dims
              dv cv Hd Hc)
    as (rd & rc & s' & dims' & coords' & Hrun & _ & _ & _ & _ & Hrd & Hrc & Hsub).
  exists (rd, rc), s'. split_and!; [done| | | |done..].
  - by eapply list_arg_weaken.
  - by eapply dict_arg_weaken.
  - intros r o Hr. by eapply lookup_weaken.
Qed.

Lemma generate_dims_coords_frame_witness :
  ∃ res s',
    Heap.generate_dims_coords [3; 2] "x" (Some 0) (Some 1) None
      (Heap.mk_state (<[0 := Heap.ListObj [None; Some "b"]]>
                        (<[1 := Heap.DictObj {[ "b" := [LInt 7; LInt 8] ]}]> ∅)) [])
      = (Ok res, s') ∧
    Heap.objects s' !! 0 = Some (Heap.ListObj [None; Some "b"]) ∧
    Heap.objects s' !! 1 = Some (Heap.DictObj {[ "b" := [LInt 7; LInt 8] ]}).
Proof.
  destruct (generate_dims_coords_frame
              (Heap.mk_state (<[0 := Heap.ListObj [None; Some "b"]]>
                 (<[1 := Heap.DictObj {[ "b" := [LInt 7; LInt 8] ]}]> ∅)) [])
              [3; 2] "x" (Some 0) (Some 1) None
              (Some [None; Some "b"]) (Some {[ "b" := [LInt 7; LInt 8] ]}))
    as (res & s' & Hrun & Hd & Hc & _).
  - vm_compute. reflexivity.
  - vm_compute. reflexivity.
  - exists res, s'. split_and!; [exact Hrun | exact Hd | exact Hc].
Defined.

(** ** The theorems at concrete inputs *)

Lemma numpy_to_data_array_invariant_witness :
  ∃ la,
    outcome (numpy_to_data_array (mk_ndarray [2; 3; 2] ([] : list Z)) "theta"
               (Some {[ "school" := [LStr "a"; LStr "b"] ]})
               (Some [Some "school"])) = Ok la ∧
    length (la_dims la) = length (nd_shape (la_values la)) ∧
    (∀ key, is_Some (la_coords la !! key) ↔ key ∈ la_dims la) ∧
    (∀ i name, la_dims la !! i = Some name →
       ∃ c n, la_coords la !! name = Some c ∧
              nd_shape (la_values la) !! i = Some n ∧ length c = n) ∧
    la_values la = two_de (mk_ndarray [2; 3; 2] []).
Proof.
  eexists. split; [vm_compute; reflexivity|].
  apply (numpy_to_data_array_invariant (mk_ndarray [2; 3; 2] ([] : list Z))
           "theta" (Some {[ "school" := [LStr "a"; LStr "b"] ]})
           (Some [Some "school"])).
  vm_compute. reflexivity.
Defined.

Lemma coordinate_length_mismatch_witness :
  outcome (numpy_to_data_array (mk_ndarray [2; 100; 4] ([] : list Z)) "theta"
             (Some {[ "school" := [LStr "a"; LStr "b"; LStr "c"] ]})
             (Some [Some "school"])) = Err CoordinateLengthError.
Proof.
  destruct coordinate_length_mismatch as (Hgeneral & _ & _).
  destruct (Hgeneral Z (mk_ndarray [2; 100; 4] []) "theta"
              {[ "school" := [LStr "a"; LStr "b"; LStr "c"] ]}
              (Some [Some "school"]) 2 100 [4] []
              [Some "school"] {[ "school" := [LStr "a"; LStr "b"; LStr "c"] ]}
              2 "school" 4 [LStr "a"; LStr "b"; LStr "c"])
    as (e & Hrun & _ & Hkind).
  - reflexivity.
  - vm_compute. reflexivity.
  - vm_compute. reflexivity.
  - apply list_elem_of_here.
  - vm_compute. reflexivity.
  - reflexivity.
  - simpl. lia.
  - rewrite Hrun. f_equal. eapply Hkind; vm_compute; reflexivity.
Defined.

Lemma dict_to_dataset_spec_witness :
  ∃ ds,
    outcome (dict_to_dataset
               (mk_environment "2020-01-01T00:00:00" (λ _, None))
               [("x", mk_ndarray [2; 3] ([] : list Z));
                ("y", mk_ndarray [2; 3; 2] [])]
               None None None None) = Ok ds ∧
    (data_vars ds).*1 = ["x"; "y"].
Proof.
  destruct (dict_to_dataset_spec
              (mk_environment "2020-01-01T00:00:00" (λ _, None))
              [("x", mk_ndarray [2; 3] ([] : list Z));
               ("y", mk_ndarray [2; 3; 2] [])]
              None None None None) as [Hrun _].
  - simpl. apply NoDup_cons. split; [|apply NoDup_singleton].
    intros Hin%list_elem_of_singleton. discriminate.
  - destruct (Hrun
      [mk_LabeledArray (mk_ndarray [2; 3] []) ["chain"; "draw"]
         (<["chain" := arange 2]> (<["draw" := arange 3]> ∅));
       mk_LabeledArray (mk_ndarray [2; 3; 2] []) ["chain"; "draw"; "y_dim_0"]
         (<["chain" := arange 2]>
            (<["draw" := arange 3]> (<["y_dim_0" := arange 2]> ∅)))])
      as [Heq Hkeys].
    + repeat constructor; vm_compute; reflexivity.
    + eexists. split; [by rewrite Heq|]. exact Hkeys.
Defined.

(** * Further properties of the code *)

(** ** [generate_dims_coords]: names and coordinates of the caller *)

Lemma dim_name_at_named v k dims i :
  i < k → dim_name_at v (named_dims v k dims) i = dim_name_at v dims i.
Proof.
  intros Hi. unfold dim_name_at at 1.
  by rewrite lookup_named_dims, decide_True.
Qed.

Lemma filled_coords_ext v dims1 dims2 shape (coords : CoordSpec) :
  (∀ i, i < length shape → dim_name_at v dims1 i = dim_name_at v dims2 i) →
  filled_coords v dims1 shape coords = filled_coords v dims2 shape coords.
Proof.
  induction shape as [|n shape IH] using rev_ind; intros Hsame; [done|].
  rewrite !filled_coords_snoc, IH.
  - rewrite Hsame; [done|]. rewrite length_app. simpl. lia.
  - intros i Hi. apply Hsame. rewrite length_app. simpl. lia.
Qed.

Lemma filled_coords_id v dims shape (coords : CoordSpec) :
  (∀ i, i < length shape → is_Some (coords !! dim_name_at v dims i)) →
  filled_coords v dims shape coords = coords.
Proof.
  induction shape as [|n shape IH] using rev_ind; intros Hall; [done|].
  rewrite filled_coords_snoc, IH.
  - unfold default_coord.
    rewrite (proj2 (has_key_true _ _)); [done|].
    apply Hall. rewrite length_app. simpl. lia.
  - intros i Hi. apply Hall. rewrite length_app. simpl. lia.
Qed.

Lemma used_coords_idemp dims (coords : CoordSpec) :
  used_coords dims (used_coords dims coords) = used_coords dims coords.
Proof.
  apply map_eq. intros key. rewrite !lookup_used_coords. by case_decide.
Qed.

(** X1: [generate_dims_coords] keeps every name the caller gave for an axis
    at its position, gives the generated name to the axes whose entry is
    [None] or missing, and leaves the entries beyond [len(shape)] as they
    were. *)
Theorem generate_dims_coords_partial_dims shape var_name dims coords default_dims :
  ∃ ws (dims' : DimList) (coords' : CoordSpec),
    generate_dims_coords shape var_name dims coords default_dims =
      (ws, Ok (dims', coords')) ∧
    (∀ i name, i < length shape →
       default [] dims !! i = Some (Some name) →
       dims' !! i = Some (Some name)) ∧
    (∀ i, i < length shape →
       default [] dims !! i = Some None ∨ default [] dims !! i = None →
       dims' !! i = Some (Some (auto_dim_name var_name i))) ∧
    (∀ i, length shape ≤ i → dims' !! i = default [] dims !! i).
Proof.
  do 3 eexists. split; [apply generate_dims_coords_eq|].
  split_and!.
  - intros i name Hi Hname. rewrite lookup_named_dims, decide_True by done.
    unfold dim_name_at. by rewrite Hname.
  - intros i Hi Hgap. rewrite lookup_named_dims, decide_True by done.
    unfold dim_name_at. by destruct Hgap as [-> | ->].
  - intros i Hi. rewrite lookup_named_dims, decide_False; [done|lia].
Qed.

(** X2: a coordinate of the returned coords is under a name of the returned
    dims and is either the one the caller supplied under that name or, when
    the caller supplied none, the default range of an axis of that name; a
    supplied coordinate under a name of the returned dims is returned as it
    is, and one under any other name is dropped. *)
Theorem generate_dims_coords_coords shape var_name dims coords default_dims :
  ∃ ws (dims' : DimList) (coords' : CoordSpec),
    generate_dims_coords shape var_name dims coords default_dims =
      (ws, Ok (dims', coords')) ∧
    (∀ key c, coords' !! key = Some c →
       Some key ∈ dims' ∧
       (default ∅ coords !! key = Some c ∨
        default ∅ coords !! key = None ∧
        ∃ i n, shape !! i = Some n ∧ dims' !! i = Some (Some key) ∧
               c = arange n)) ∧
    (∀ key c, default ∅ coords !! key = Some c → Some key ∈ dims' →
       coords' !! key = Some c) ∧
    (∀ key, Some key ∉ dims' → coords' !! key = None).
Proof.
  do 3 eexists. split; [apply generate_dims_coords_eq|].
  split_and!.
  - intros key c Hc. rewrite lookup_used_coords in Hc.
    case_decide as Hin; [|done]. split; [done|].
    destruct (default ∅ coords !! key) as [c0|] eqn:Hsupplied.
    + left. rewrite (filled_coords_keeps _ _ _ _ _ _ Hsupplied) in Hc. congruence.
    + right. split; [done|].
      apply filled_coords_origin in Hc as [Hc|(i & n & Hi & Hname & ->)];
        [congruence|].
      exists i, n. split_and!; [done| |done].
      rewrite lookup_named_dims, decide_True by (by apply lookup_lt_Some in Hi).
      by rewrite Hname.
  - intros key c Hc Hin. rewrite lookup_used_coords, decide_True by done.
    by apply filled_coords_keeps.
  - intros key Hin. by rewrite lookup_used_coords, decide_False.
Qed.

Lemma named_dims_idemp v k dims :
  named_dims v k (named_dims v k dims) = named_dims v k dims.
Proof.
  apply list_eq. intros i. rewrite (lookup_named_dims v k (named_dims v k dims)).
  case_decide as Hi; [|done].
  rewrite dim_name_at_named by done.
  by rewrite lookup_named_dims, decide_True.
Qed.

Lemma generate_dims_coords_idemp shape v dims coords dd dd' :
  outcome (generate_dims_coords shape v
             (Some (named_dims v (length shape) (default [] dims)))
             (Some (used_coords (named_dims v (length shape) (default [] dims))
                      (filled_coords v (default [] dims) shape (default ∅ coords))))
             dd') =
    outcome (generate_dims_coords shape v dims coords dd).
Proof.
  rewrite !generate_dims_coords_eq. unfold outcome. simpl.
  set (ds := default [] dims). set (cs := default ∅ coords).
  rewrite named_dims_idemp. do 2 f_equal.
  rewrite (filled_coords_ext v (named_dims v (length shape) ds) ds)
    by (intros i Hi; by apply dim_name_at_named).
  rewrite filled_coords_id; [apply used_coords_idemp|].
  intros i Hi. rewrite lookup_used_coords, decide_True.
  - destruct (lookup_lt_is_Some_2 shape i Hi) as [n Hn].
    by eapply filled_coords_defined.
  - apply elem_of_named_dims. left. by exists i.
Qed.

(** X3: [generate_dims_coords] is idempotent: called again on the dims and
    coords it returned, with the same shape and name, it returns them
    unchanged. *)
Theorem generate_dims_coords_idempotent shape var_name dims coords default_dims
    default_dims' (dims' : DimList) (coords' : CoordSpec) :
  outcome (generate_dims_coords shape var_name dims coords default_dims) =
    Ok (dims', coords') →
  outcome (generate_dims_coords shape var_name (Some dims') (Some coords')
                                default_dims') = Ok (dims', coords').
Proof.
  intros Hfirst.
  pose proof (generate_dims_coords_idemp shape var_name dims coords
                default_dims default_dims') as Hagain.
  rewrite Hfirst in Hagain. rewrite <- Hagain.
  rewrite generate_dims_coords_eq in Hfirst. unfold outcome in Hfirst.
  simpl in Hfirst. by injection Hfirst as <- <-.
Qed.

(** X4: a name the caller supplied no coordinate for gets the default range
    of the first axis that bears it; when the name is given to several axes
    the later ones do not change it. *)
Theorem generate_dims_coords_first_axis shape var_name dims coords default_dims
    ws (dims' : DimList) (coords' : CoordSpec) i n name :
  generate_dims_coords shape var_name dims coords default_dims =
    (ws, Ok (dims', coords')) →
  shape !! i = Some n →
  dims' !! i = Some (Some name) →
  (∀ j, j < i → dims' !! j ≠ Some (Some name)) →
  default ∅ coords !! name = None →
  coords' !! name = Some (arange n).
Proof.
  rewrite generate_dims_coords_eq. intros [= _ <- <-] Hn Hi Hfirst Hnone.
  assert (Hlt : i < length shape) by (by apply lookup_lt_Some in Hn).
  rewrite lookup_named_dims, decide_True in Hi by done.
  injection Hi as <-.
  rewrite lookup_used_coords, decide_True.
  - apply filled_coords_first; [done..|].
    intros j Hj Heq. apply (Hfirst j Hj).
    rewrite lookup_named_dims, decide_True by lia. by rewrite Heq.
  - apply elem_of_named_dims. left. by exists i.
Qed.

Lemma generate_dims_coords_idempotent_witness :
  outcome (generate_dims_coords [3; 2] "x"
             (Some [Some "x_dim_0"; Some "b"])
             (Some (<["x_dim_0" := arange 3]> (<["b" := arange 2]> ∅)))
             (Some ["chain"; "draw"])) =
    Ok ([Some "x_dim_0"; Some "b"],
        <["x_dim_0" := arange 3]> (<["b" := arange 2]> ∅)).
Proof.
  apply (generate_dims_coords_idempotent [3; 2] "x" (Some [None; Some "b"])
           None None).
  vm_compute. reflexivity.
Defined.

Lemma generate_dims_coords_first_axis_witness :
  ∃ ws dims' (coords' : CoordSpec),
    generate_dims_coords [2; 3] "x" (Some [Some "a"; Some "a"]) None None =
      (ws, Ok (dims', coords')) ∧
    coords' !! "a" = Some (arange 2).
Proof.
  do 3 eexists. split; [vm_compute; reflexivity|].
  apply (generate_dims_coords_first_axis [2; 3] "x" (Some [Some "a"; Some "a"])
           None None [] [Some "a"; Some "a"] _ 0 2 "a").
  - vm_compute. reflexivity.
  - reflexivity.
  - reflexivity.
  - intros j Hj. lia.
  - reflexivity.
Defined.

(** ** [numpy_to_data_array]: further behaviour *)

Lemma named_dims_elem v k dims name :
  Some name ∈ named_dims v k dims →
  Some name ∈ dims ∨ ∃ i, name = auto_dim_name v i.
Proof.
  intros [(i & _ & [= ->])|Hin]%elem_of_named_dims.
  - unfold dim_name_at. destruct (dims !! i) as [[name|]|] eqn:Hi.
    + left. apply list_elem_of_lookup. by exists i.
    + right. by exists i.
    + right. by exists i.
  - left. apply list_elem_of_lookup in Hin as [j Hj].
    rewrite lookup_drop in Hj. apply list_elem_of_lookup. by eexists.
Qed.

Lemma reserved_coord_default {A} (ary : ndarray A) v coords dims la c d S
    name n other m :
  nd_shape (two_de ary) = c :: d :: S →
  outcome (numpy_to_data_array ary v coords dims) = Ok la →
  (name = "chain" ∧ n = c ∧ other = "draw" ∧ m = d) ∨
  (name = "draw" ∧ n = d ∧ other = "chain" ∧ m = c) →
  Some name ∉ default [] dims →
  la_coords la !! name = Some (arange n).
Proof.
  intros Hshape Hla Hwhich Hfree.
  apply numpy_to_data_array_Ok in Hla
    as (c' & d' & S' & ws & dims1 & coords1 & names & Hshape' & Hgdc & Hnames
        & Hall & Hla).
  rewrite Hshape in Hshape'. injection Hshape' as <- <- <-.
  apply DataArray_Ok in Hla as (-> & _). simpl.
  assert (Hin : name ∈ names).
  { apply (list_elem_of_fmap_inj_2 Some). rewrite <- Hnames.
    destruct (normalize_dims_reserved dims1) as [? ?].
    destruct Hwhich as [(-> & _)|(-> & _)]; done. }
  rewrite lookup_dict_of_items, decide_True by done.
  assert (Hdropped : coords1 !! name = None).
  { eapply generate_dims_coords_drops; [exact Hgdc|].
    pose proof Hgdc as Hgdc'. rewrite generate_dims_coords_eq in Hgdc'.
    injection Hgdc' as _ <- _.
    intros [Hin'|[i Hauto]]%named_dims_elem; [done|].
    destruct Hwhich as [(-> & _)|(-> & _)]; symmetry in Hauto.
    - by apply auto_dim_name_not_chain in Hauto.
    - by apply auto_dim_name_not_draw in Hauto. }
  rewrite !lookup_default_coord, Hdropped.
  destruct Hwhich as [(-> & -> & -> & ->)|(-> & -> & -> & ->)]; done.
Qed.

(** X5: a coordinate that the caller supplies for ["chain"] is not used
    unless ["chain"] is among the supplied dims: the returned array has the
    range 0..n_chains-1 as its chain coordinate whatever [coords] holds; the
    same goes for ["draw"] and 0..n_samples-1. *)
Theorem numpy_to_data_array_reserved_coords {A} (ary : ndarray A) var_name
    coords dims la n_chains n_samples shape :
  nd_shape (two_de ary) = n_chains :: n_samples :: shape →
  outcome (numpy_to_data_array ary var_name coords dims) = Ok la →
  (Some "chain" ∉ default [] dims →
     la_coords la !! "chain" = Some (arange n_chains)) ∧
  (Some "draw" ∉ default [] dims →
     la_coords la !! "draw" = Some (arange n_samples)).
Proof.
  intros Hshape Hla. split; intros Hfree.
  - eapply (reserved_coord_default ary var_name coords dims la _ _ _
              "chain" n_chains "draw" n_samples); eauto.
  - eapply (reserved_coord_default ary var_name coords dims la _ _ _
              "draw" n_samples "chain" n_chains); eauto.
Qed.

Lemma numpy_to_data_array_reserved_coords_witness :
  ∃ la,
    outcome (numpy_to_data_array (mk_ndarray [2; 3] ([] : list Z)) "x"
               (Some {[ "chain" := [LStr "a"; LStr "b"] ]}) None) = Ok la ∧
    la_coords la !! "chain" = Some [LInt 0; LInt 1].
Proof.
  eexists. split; [vm_compute; reflexivity|].
  apply (numpy_to_data_array_reserved_coords (mk_ndarray [2; 3] ([] : list Z))
           "x" (Some {[ "chain" := [LStr "a"; LStr "b"] ]}) None _ 2 3 []).
  - reflexivity.
  - vm_compute. reflexivity.
  - simpl. apply not_elem_of_nil.
Defined.

Lemma two_de_idemp {A} (ary : ndarray A) : two_de (two_de ary) = two_de ary.
Proof. by destruct ary as [[|n [|m S]] data]. Qed.

Lemma numpy_to_data_array_two_de {A} (ary : ndarray A) v coords dims :
  numpy_to_data_array (two_de ary) v coords dims =
    numpy_to_data_array ary v coords dims.
Proof. unfold numpy_to_data_array. by rewrite two_de_idemp. Qed.

(** X6: an array of one axis is taken as a single chain: labeled without
    overrides it becomes an array of shape (1, n) with dims [chain, draw],
    chain coordinate [0] and draw coordinate 0..n-1, the entries being the
    same. *)
Theorem numpy_to_data_array_rank1 {A} (data : list A) n var_name :
  ∃ coords : CoordSpec,
    outcome (numpy_to_data_array (mk_ndarray [n] data) var_name None None) =
      Ok (mk_LabeledArray (mk_ndarray [1; n] data) ["chain"; "draw"] coords) ∧
    coords !! "chain" = Some [LInt 0] ∧
    coords !! "draw" = Some (arange n) ∧
    (∀ key, is_Some (coords !! key) → key = "chain" ∨ key = "draw") ∧
    (0 < n → warnings (numpy_to_data_array (mk_ndarray [n] data) var_name
                         None None) = []).
Proof.
  destruct (numpy_to_data_array_None (mk_ndarray [1; n] data) var_name 1 n [] eq_refl)
    as (coords & Heq & Hchain & Hdraw & _ & Hkeys).
  exists coords.
  change (mk_ndarray [1; n] data) with (two_de (mk_ndarray [n] data)) in Heq at 1.
  rewrite numpy_to_data_array_two_de in Heq. rewrite Heq.
  split_and!; [done..| |].
  - intros key Hkey. apply Hkeys in Hkey.
    apply elem_of_cons in Hkey as [->|Hkey]; [by left|].
    apply list_elem_of_singleton in Hkey as ->. by right.
  - intros Hn. unfold warnings, chains_warning. simpl.
    by rewrite (proj2 (Nat.ltb_ge n 1)) by lia.
Qed.

(** X7: when more names that are not reserved are supplied than the array
    has free axes, so that the inference step warns, [numpy_to_data_array]
    returns no labeled array: it fails on a name without a coordinate or on
    the number of names. *)
Theorem numpy_to_data_array_too_many_dims {A} (ary : ndarray A) var_name
    coords dims n_chains n_samples shape :
  nd_shape (two_de ary) = n_chains :: n_samples :: shape →
  length shape < extra_dims ["chain"; "draw"] (default [] dims) →
  ∃ e, outcome (numpy_to_data_array ary var_name coords dims) = Err e ∧
       (e = DimsRankError ∨ ∃ key, e = KeyError key) ∧
       ∃ w, w ∈ warnings (numpy_to_data_array ary var_name coords dims) ∧
            w = MoreDimsThanShape var_name (length (default [] dims))
                  (length shape) "chain,draw, ".
Proof.
  intros Hshape Hextra.
  destruct (numpy_to_data_array_extra_dims ary var_name coords dims _ _ _
              Hshape Hextra) as (e & Herr & Hkind).
  exists e. split_and!; [done..|].
  eexists. split; [|done].
  rewrite (numpy_to_data_array_warnings _ _ _ _ _ _ _ Hshape).
  rewrite generate_dims_coords_warnings. unfold dims_warning. simpl.
  rewrite (proj2 (Nat.ltb_lt _ _) Hextra).
  apply elem_of_app. right. apply list_elem_of_here.
Qed.

Lemma numpy_to_data_array_too_many_dims_witness :
  outcome (numpy_to_data_array (mk_ndarray [4; 100] ([] : list Z)) "x"
             (Some {[ "a" := [LInt 0] ]}) (Some [Some "a"])) = Err DimsRankError.
Proof.
  destruct (numpy_to_data_array_too_many_dims (mk_ndarray [4; 100] ([] : list Z))
              "x" (Some {[ "a" := [LInt 0] ]}) (Some [Some "a"]) 4 100 [])
    as (e & Herr & _).
  - reflexivity.
  - vm_compute. lia.
  - vm_compute. reflexivity.
Defined.

Lemma named_dims_all_named v names :
  named_dims v (length names) (Some <$> names) = Some <$> names.
Proof.
  apply list_eq. intros i. rewrite lookup_named_dims. case_decide as Hi.
  - destruct (lookup_lt_is_Some_2 names i Hi) as [name Hname].
    unfold dim_name_at. by rewrite list_lookup_fmap, Hname.
  - done.
Qed.

Lemma dim_name_at_names v names i name :
  names !! i = Some name → dim_name_at v (Some <$> names) i = name.
Proof. intros Hi. unfold dim_name_at. by rewrite list_lookup_fmap, Hi. Qed.

(** X8: an array labeled with one name for each free axis, the names
    distinct and none of them ["chain"] or ["draw"], and with no
    coordinates, is returned with dims [chain], [draw] and then the names
    in the order given, every axis having its range 0..len-1 as coordinate;
    the dims warning is not emitted. *)
Theorem numpy_to_data_array_named_axes {A} (ary : ndarray A) var_name names
    n_chains n_samples shape :
  nd_shape (two_de ary) = n_chains :: n_samples :: shape →
  length names = length shape →
  NoDup names → "chain" ∉ names → "draw" ∉ names →
  ∃ coords : CoordSpec,
    numpy_to_data_array ary var_name None (Some (Some <$> names)) =
      (if n_samples <? n_chains
       then [MoreChainsThanDraws n_chains n_samples] else [],
       Ok (mk_LabeledArray (two_de ary) ("chain" :: "draw" :: names) coords)) ∧
    coords !! "chain" = Some (arange n_chains) ∧
    coords !! "draw" = Some (arange n_samples) ∧
    (∀ i name n, names !! i = Some name → shape !! i = Some n →
                 coords !! name = Some (arange n)) ∧
    (∀ key, is_Some (coords !! key) → key ∈ "chain" :: "draw" :: names).
Proof.
  rename var_name into v, n_chains into c, n_samples into d, shape into S.
  intros Hshape Hlen Hnodup Hchain Hdraw.
  assert (Hchain' : Some "chain" ∉ (Some <$> names))
    by (by intros ?%(list_elem_of_fmap_inj_2 Some)).
  assert (Hdraw' : Some "draw" ∉ (Some <$> names))
    by (by intros ?%(list_elem_of_fmap_inj_2 Some)).
  pose proof (generate_dims_coords_eq S v (Some (Some <$> names)) None
                (Some ["chain"; "draw"])) as Hgdc.
  simpl in Hgdc. rewrite <- Hlen, named_dims_all_named in Hgdc.
  assert (Hnowarn : dims_warning S v (Some <$> names) ["chain"; "draw"] = []).
  { unfold dims_warning, extra_dims.
    pose proof (filter_length_le (not_default ["chain"; "draw"]) (Some <$> names)) as Hle.
    rewrite length_fmap in Hle.
    by rewrite (proj2 (Nat.ltb_ge _ _)) by lia. }
  rewrite Hnowarn in Hgdc.
  set (coords1 := used_coords (Some <$> names)
                    (filled_coords v (Some <$> names) S ∅)) in Hgdc.
  assert (Haxes : ∀ i name n, names !! i = Some name → S !! i = Some n →
                    coords1 !! name = Some (arange n)).
  { intros i name n Hi Hn. unfold coords1.
    rewrite lookup_used_coords, decide_True
      by (apply list_elem_of_fmap_2, list_elem_of_lookup; by exists i).
    rewrite <- (dim_name_at_names v names i name Hi).
    apply filled_coords_first; [done..|].
    intros j Hj.
    destruct (lookup_lt_is_Some_2 names j) as [name' Hname'].
    { apply lookup_lt_Some in Hi. lia. }
    rewrite (dim_name_at_names v names j name' Hname'),
            (dim_name_at_names v names i name Hi).
    intros ->. pose proof (NoDup_lookup _ _ _ _ Hnodup Hname' Hi). lia. }
  assert (Hnochain : coords1 !! "chain" = None)
    by (unfold coords1; by rewrite lookup_used_coords, decide_False).
  assert (Hnodraw : coords1 !! "draw" = None)
    by (unfold coords1; by rewrite lookup_used_coords, decide_False).
  set (C := default_coord "draw" d (default_coord "chain" c coords1)).
  assert (HCchain : C !! "chain" = Some (arange c)).
  { unfold C. rewrite !lookup_default_coord, Hnochain. done. }
  assert (HCdraw : C !! "draw" = Some (arange d)).
  { unfold C. rewrite !lookup_default_coord, Hnodraw. done. }
  assert (HCaxis : ∀ i name n, names !! i = Some name → S !! i = Some n →
                     C !! name = Some (arange n)).
  { intros i name n Hi Hn. unfold C. rewrite !lookup_default_coord.
    by rewrite (Haxes i name n Hi Hn). }
  set (all_names := "chain" :: "draw" :: names).
  assert (Hall : ∀ name, name ∈ all_names → is_Some (C !! name)).
  { intros name [->|[->|Hin]%elem_of_cons]%elem_of_cons; [by eexists..|].
    apply list_elem_of_lookup in Hin as [i Hi].
    destruct (lookup_lt_is_Some_2 S i) as [n Hn].
    { rewrite <- Hlen. by apply lookup_lt_Some in Hi. }
    rewrite (HCaxis i name n Hi Hn). by eexists. }
  exists (dict_of_items (items_of C all_names)).
  split_and!.
  - rewrite (numpy_to_data_array_run _ _ _ _ _ _ _ _ _ _ Hshape Hgdc).
    rewrite app_nil_r.
    destruct (normalize_dims_cases (Some <$> names)) as (Hnorm & _).
    rewrite (Hnorm Hdraw' Hchain').
    change (Some "chain" :: Some "draw" :: (Some <$> names))
      with (Some <$> all_names).
    fold C. rewrite (index_coords_names C all_names Hall), rbind_Ok.
    rewrite items_of_names.
    rewrite DataArray_fits; [done| |].
    + rewrite Hshape. unfold all_names. simpl. by rewrite Hlen.
    + intros i name n Hi Hn. unfold fits.
      rewrite lookup_dict_of_items, decide_True
        by (done || (apply list_elem_of_lookup; by exists i)).
      rewrite Hshape in Hn. unfold all_names in Hi.
      destruct i as [|[|i]]; simpl in Hi, Hn.
      * injection Hi as <-. injection Hn as <-.
        rewrite HCchain. apply bool_decide_eq_true, length_arange.
      * injection Hi as <-. injection Hn as <-.
        rewrite HCdraw. apply bool_decide_eq_true, length_arange.
      * rewrite (HCaxis i name n Hi Hn).
        apply bool_decide_eq_true, length_arange.
  - rewrite lookup_dict_of_items, decide_True; [done| |done].
    apply list_elem_of_here.
  - rewrite lookup_dict_of_items, decide_True; [done| |done].
    apply list_elem_of_further, list_elem_of_here.
  - intros i name n Hi Hn.
    rewrite lookup_dict_of_items, decide_True; [by eapply HCaxis| |done].
    do 2 apply list_elem_of_further. apply list_elem_of_lookup. by exists i.
  - intros key [x Hx]. rewrite lookup_dict_of_items in Hx by done.
    by case_decide.
Qed.


Lemma numpy_to_data_array_named_axes_witness :
  ∃ coords : CoordSpec,
    outcome (numpy_to_data_array (mk_ndarray [2; 3; 8] ([] : list Z)) "theta"
               None (Some [Some "school"])) =
      Ok (mk_LabeledArray (mk_ndarray [2; 3; 8] []) ["chain"; "draw"; "school"]
            coords) ∧
    coords !! "school" = Some (arange 8).
Proof.
  destruct (numpy_to_data_array_named_axes (mk_ndarray [2; 3; 8] ([] : list Z))
              "theta" ["school"] 2 3 [8])
    as (coords & Heq & _ & _ & Haxes & _).
  - reflexivity.
  - reflexivity.
  - apply NoDup_singleton.
  - intros Hin%list_elem_of_singleton. discriminate.
  - intros Hin%list_elem_of_singleton. discriminate.
  - exists coords. split; [|by apply (Haxes 0 "school" 8)].
    change (Some [Some "school"]) with (Some (Some <$> ["school"])).
    by rewrite Heq.
Defined.

(** ** [dict_to_dataset]: further behaviour *)

Lemma label_items_fail {A} (pre post : list (string * ndarray A)) key values
    coords dims acc las e :
  Forall2 (λ kv la, outcome (label_entry coords dims kv) = Ok la) pre las →
  outcome (label_entry coords dims (key, values)) = Err e →
  label_items (pre ++ (key, values) :: post) coords dims acc =
    (concat ((λ kv, warnings (label_entry coords dims kv)) <$> pre) ++
     warnings (label_entry coords dims (key, values)), Err e).
Proof.
  intros Hpre Hfail. revert acc.
  induction Hpre as [|[k v] la pre las Hcall Hpre IH]; intros acc.
  - simpl. unfold label_entry, outcome, warnings in *. simpl in *.
    destruct (numpy_to_data_array values key coords (dims !! key)) as [ws r].
    simpl in Hfail. by subst r.
  - simpl. unfold label_entry, outcome, warnings in Hcall |- *. simpl in *.
    destruct (numpy_to_data_array v k coords (dims !! k)) as [ws r].
    simpl in Hcall. subst r. rewrite bind_Ok, IH. simpl.
    by rewrite app_assoc.
Qed.

(** X9: [dict_to_dataset] stops at the first entry of [data] that
    [numpy_to_data_array] fails on: the error of that call is the error of
    the whole, the warnings are those of the calls up to and including it,
    and the entries after it play no part. *)
Theorem dict_to_dataset_fail_fast {A} env (pre post : list (string * ndarray A))
    key values attrs library coords dims las e :
  Forall2 (λ kv la,
             outcome (numpy_to_data_array kv.2 kv.1 coords
                        (default ∅ dims !! kv.1)) = Ok la) pre las →
  outcome (numpy_to_data_array values key coords (default ∅ dims !! key)) =
    Err e →
  dict_to_dataset env (pre ++ (key, values) :: post) attrs library coords dims =
    (concat ((λ kv, warnings (numpy_to_data_array kv.2 kv.1 coords
                                (default ∅ dims !! kv.1))) <$> pre) ++
     warnings (numpy_to_data_array values key coords (default ∅ dims !! key)),
     Err e).
Proof.
  intros Hpre Hfail. unfold dict_to_dataset.
  rewrite (label_items_fail pre post key values coords (default ∅ dims) [] las e)
    by done.
  done.
Qed.

Lemma dict_to_dataset_fail_fast_witness :
  dict_to_dataset (mk_environment "2020-01-01T00:00:00" (λ _, None))
    [("x", mk_ndarray [5; 3] ([] : list Z));
     ("y", mk_ndarray [2; 3; 4] []);
     ("z", mk_ndarray [2; 3] [])]
    None None
    (Some {[ "y_dim_0" := [LInt 0; LInt 1; LInt 2] ]}) None =
  ([MoreChainsThanDraws 5 3], Err CoordinateLengthError).
Proof.
  etrans.
  - apply (dict_to_dataset_fail_fast
             (mk_environment "2020-01-01T00:00:00" (λ _, None))
             [("x", mk_ndarray [5; 3] ([] : list Z))]
             [("z", mk_ndarray [2; 3] [])]
             "y" (mk_ndarray [2; 3; 4] []) None None
             (Some {[ "y_dim_0" := [LInt 0; LInt 1; LInt 2] ]}) None
             [mk_LabeledArray (mk_ndarray [5; 3] []) ["chain"; "draw"]
                (<["chain" := arange 5]> (<["draw" := arange 3]> ∅))]
             CoordinateLengthError).
    + constructor; [vm_compute; reflexivity | constructor].
    + vm_compute. reflexivity.
  - vm_compute. reflexivity.
Defined.

Lemma label_items_dims_ext {A} (items : list (string * ndarray A)) coords
    (dims1 dims2 : gmap string DimList) acc :
  (∀ key, key ∈ items.*1 → dims1 !! key = dims2 !! key) →
  label_items items coords dims1 acc = label_items items coords dims2 acc.
Proof.
  revert acc. induction items as [|[key values] items IH]; intros acc Hsame;
    [done|].
  simpl. rewrite (Hsame key) by apply list_elem_of_here.
  destruct (numpy_to_data_array values key coords (dims2 !! key)) as [ws [la|e]];
    [|done].
  rewrite !bind_Ok, IH; [done|].
  intros k Hk. apply Hsame. by apply list_elem_of_further.
Qed.

(** X10: the [dims] argument of [dict_to_dataset] matters only under the
    names of [data]: two [dims] that agree on these names give the same
    result, so an entry of [dims] under any other name is ignored. *)
Theorem dict_to_dataset_dims_of_data {A} env (data : list (string * ndarray A))
    attrs library coords (dims1 dims2 : gmap string DimList) :
  (∀ key, key ∈ data.*1 → dims1 !! key = dims2 !! key) →
  dict_to_dataset env data attrs library coords (Some dims1) =
    dict_to_dataset env data attrs library coords (Some dims2).
Proof.
  intros Hsame. unfold dict_to_dataset. simpl.
  by rewrite (label_items_dims_ext data coords dims1 dims2 []).
Qed.

Lemma dict_to_dataset_dims_of_data_witness :
  dict_to_dataset (mk_environment "2020-01-01T00:00:00" (λ _, None))
    [("x", mk_ndarray [2; 3; 4] ([] : list Z))] None None None
    (Some (<["x" := [Some "school"]]> (<["y" := [Some "a"; Some "b"]]> ∅))) =
  dict_to_dataset (mk_environment "2020-01-01T00:00:00" (λ _, None))
    [("x", mk_ndarray [2; 3; 4] ([] : list Z))] None None None
    (Some {[ "x" := [Some "school"] ]}).
Proof.
  apply dict_to_dataset_dims_of_data.
  intros key Hkey. simpl in Hkey. apply list_elem_of_singleton in Hkey as ->.
  vm_compute. reflexivity.
Defined.

(** ** [make_attrs]: the library *)


(** ** [requires] *)

Lemma none_flags_present {V} (cls : gmap string (option V)) names :
  (∀ name, name ∈ names → is_Some (cls !! name)) →
  none_flags cls names =
    inr ((λ name, match cls !! name with Some None => true | _ => false end) <$> names).
Proof.
  induction names as [|name names IH]; intros Hall; [done|].
  csimpl. destruct (Hall name) as [v Hv]; [apply list_elem_of_here|].
  rewrite IH by (intros n Hn; apply Hall; by apply list_elem_of_further).
  rewrite Hv. by destruct v.
Qed.

Lemma none_flags_missing {V} (cls : gmap string (option V)) present missing rest :
  (∀ name, name ∈ present → is_Some (cls !! name)) →
  cls !! missing = None →
  none_flags cls (present ++ missing :: rest) = inl missing.
Proof.
  induction present as [|name present IH]; intros Hall Hmissing.
  - simpl. by rewrite Hmissing.
  - simpl. destruct (Hall name) as [v Hv]; [apply list_elem_of_here|].
    rewrite Hv, IH; [done| |done].
    intros n Hn. apply Hall. by apply list_elem_of_further.
Qed.

Lemma forallb_none_flags {V} (cls : gmap string (option V)) names :
  forallb id ((λ name, match cls !! name with Some None => true | _ => false end) <$> names) = true ↔
  Forall (λ name, cls !! name = Some None) names.
Proof.
  induction names as [|name names IH]; [done|].
  csimpl. rewrite andb_true_iff, IH, Forall_cons.
  unfold id. destruct (cls !! name) as [[v|]|]; intuition congruence.
Qed.

(** X12: decorating a function several times is decorating it once with
    all the arguments: the attributes of the outer decorator are looked at
    first, then those of the inner one, and an attribute that is missing
    raises at the same place. *)
Theorem requires_stacked {V R E} (props1 props2 : list prop_spec)
    (func : gmap string (option V) → py_outcome R E) cls :
  requires props1 (requires props2 func) cls =
    requires (props1 ++ props2) func cls.
Proof.
  induction props1 as [|prop props1 IH]; [done|].
  simpl. destruct (none_flags cls (prop_names prop)) as [missing|flags]; [done|].
  by destruct (forallb id flags).
Qed.

Lemma requires_present {V R E} (props : list prop_spec)
    (func : gmap string (option V) → py_outcome R E) cls :
  (∀ prop name, prop ∈ props → name ∈ prop_names prop → is_Some (cls !! name)) →
  (Exists (λ prop, Forall (λ name, cls !! name = Some None) (prop_names prop))
          props →
   requires props func cls = PyReturn None) ∧
  (¬ Exists (λ prop, Forall (λ name, cls !! name = Some None) (prop_names prop))
            props →
   requires props func cls = func cls).
Proof.
  induction props as [|prop props IH]; intros Hall.
  - split; [by intros ?%Exists_nil|done].
  - simpl. rewrite none_flags_present
      by (intros n Hn; eapply Hall; [apply list_elem_of_here|done]).
    destruct IH as [IHnone IHcall].
    { intros p n Hp Hn. eapply Hall; [by apply list_elem_of_further|done]. }
    destruct (forallb id _) eqn:Hflags.
    + apply forallb_none_flags in Hflags.
      split; [done|]. intros Hnot. exfalso. apply Hnot. by apply Exists_cons_hd.
    + assert (¬ Forall (λ name, cls !! name = Some None) (prop_names prop)) as Hnot.
      { intros HF. apply forallb_none_flags in HF. congruence. }
      split.
      * intros [?|?]%Exists_cons; [done|by apply IHnone].
      * intros Hnone. apply IHcall. intros ?. apply Hnone. by apply Exists_cons_tl.
Qed.

(** X13: on an object that has all the attributes named, the decorated
    function returns [None], without calling the function, when for one of
    the arguments every attribute it names is [None]; otherwise it is the
    function itself.  An argument that is an empty list names no attribute,
    so that with it the result is always [None]. *)
Theorem requires_spec {V R E} (props : list prop_spec)
    (func : gmap string (option V) → py_outcome R E) cls :
  (∀ prop name, prop ∈ props → name ∈ prop_names prop → is_Some (cls !! name)) →
  (Exists (λ prop, Forall (λ name, cls !! name = Some None) (prop_names prop))
          props →
   requires props func cls = PyReturn None) ∧
  (Forall (λ prop, Exists (λ name, ∃ v, cls !! name = Some (Some v))
                          (prop_names prop)) props →
   requires props func cls = func cls).
Proof.
  intros Hall. destruct (requires_present props func cls Hall) as [Hnone Hcall].
  split; [done|]. intros Hsome. apply Hcall.
  intros (prop & Hprop & Hnames)%Exists_exists.
  rewrite Forall_forall in Hsome. specialize (Hsome prop Hprop).
  apply Exists_exists in Hsome as (name & Hname & v & Hv).
  rewrite Forall_forall in Hnames. specialize (Hnames name Hname). congruence.
Qed.

Lemma requires_spec_witness :
  requires (V := nat) (R := nat) (E := unit)
    [PropName "posterior"; PropList ["prior"; "log_likelihood"]]
    (λ _, PyReturn (Some 7))
    (<["posterior" := Some 1]>
       (<["prior" := None]> (<["log_likelihood" := None]> ∅))) = PyReturn None.
Proof.
  apply requires_spec.
  - intros prop name Hprop Hname.
    apply elem_of_cons in Hprop as [->|Hprop];
      [|apply list_elem_of_singleton in Hprop as ->]; simpl in Hname.
    + apply list_elem_of_singleton in Hname as ->. vm_compute. by eexists.
    + apply elem_of_cons in Hname as [->|Hname];
        [|apply list_elem_of_singleton in Hname as ->]; vm_compute; by eexists.
  - apply Exists_cons_tl, Exists_cons_hd. simpl.
    repeat constructor; vm_compute; reflexivity.
Defined.

Lemma requires_passes_app {V R E} (props1 props2 : list prop_spec)
    (func : gmap string (option V) → py_outcome R E) cls :
  Forall (λ prop,
            (∀ name, name ∈ prop_names prop → is_Some (cls !! name)) ∧
            ∃ name v, name ∈ prop_names prop ∧ cls !! name = Some (Some v))
         props1 →
  requires (props1 ++ props2) func cls = requires props2 func cls.
Proof.
  induction 1 as [|prop props1 [Hall (name & v & Hname & Hv)] _ IH]; [done|].
  simpl. rewrite none_flags_present by done.
  destruct (forallb id _) eqn:Hflags; [|done].
  apply forallb_none_flags in Hflags.
  rewrite Forall_forall in Hflags. specialize (Hflags name Hname). congruence.
Qed.

(** X14: the arguments are looked at in order and the first one that
    decides ends the call.  After arguments that have all their attributes,
    one of them not [None], an argument whose attributes are all [None]
    makes the result [None], and an argument that names an attribute the
    object does not have raises its [AttributeError]; in both cases the
    arguments after it are not looked at and the function is not called. *)
Theorem requires_first_decides {V R E} (props1 props2 : list prop_spec) prop
    (func : gmap string (option V) → py_outcome R E) cls :
  Forall (λ prop,
            (∀ name, name ∈ prop_names prop → is_Some (cls !! name)) ∧
            ∃ name v, name ∈ prop_names prop ∧ cls !! name = Some (Some v))
         props1 →
  (Forall (λ name, cls !! name = Some None) (prop_names prop) →
   requires (props1 ++ prop :: props2) func cls = PyReturn None) ∧
  (∀ present missing rest,
     prop_names prop = present ++ missing :: rest →
     (∀ name, name ∈ present → is_Some (cls !! name)) →
     cls !! missing = None →
     requires (props1 ++ prop :: props2) func cls = PyAttributeError missing).
Proof.
  intros Hpass. split.
  - intros Hnone. rewrite requires_passes_app by done.
    simpl. rewrite none_flags_present.
    + by rewrite (proj2 (forallb_none_flags cls (prop_names prop)) Hnone).
    + intros name Hname. rewrite Forall_forall in Hnone.
      rewrite (Hnone name Hname). by eexists.
  - intros present missing rest Hnames Hpresent Hmissing.
    rewrite requires_passes_app by done.
    simpl. by rewrite Hnames, none_flags_missing.
Qed.

Lemma requires_first_decides_witness :
  requires (V := nat) (R := nat) (E := unit)
    [PropName "posterior"; PropList ["prior"; "gone"]; PropName "also_gone"]
    (λ _, PyReturn (Some 7))
    (<["posterior" := Some 1]> (<["prior" := None]> ∅)) =
  PyAttributeError "gone".
Proof.
  destruct (requires_first_decides (V := nat) (R := nat) (E := unit)
              [PropName "posterior"] [PropName "also_gone"]
              (PropList ["prior"; "gone"]) (λ _, PyReturn (Some 7))
              (<["posterior" := Some 1]> (<["prior" := None]> ∅)))
    as [_ Hraise].
  - constructor; [|constructor]. simpl. split.
    + intros name Hname. apply list_elem_of_singleton in Hname as ->.
      vm_compute. by eexists.
    + exists "posterior", 1. split; [apply list_elem_of_here|].
      vm_compute. reflexivity.
  - apply (Hraise ["prior"] "gone" []).
    + reflexivity.
    + intros name Hname. apply list_elem_of_singleton in Hname as ->.
      vm_compute. by eexists.
    + vm_compute. reflexivity.
Defined.

(** ** The helpers on inference data *)

Lemma record_dims_lookup_gen {A} skip (vars : list (string * LabeledArray A))
    (m : gmap string (LabeledArray A)) (d d0 : gmap string (list string)) var :
  (d !! var = match m !! var with
              | Some la => Some (drop skip (la_dims la))
              | None => d0 !! var
              end) →
  foldl (λ d kv, <[kv.1 := drop skip (la_dims kv.2)]> d) d vars !! var =
    match foldl (λ m kv, <[kv.1 := kv.2]> m) m vars !! var with
    | Some la => Some (drop skip (la_dims la))
    | None => d0 !! var
    end.
Proof.
  revert m d. induction vars as [|[k la] vars IH]; intros m d Hinv; [done|].
  simpl. apply IH. destruct (decide (k = var)) as [->|Hne].
  - by rewrite !lookup_insert_eq.
  - by rewrite !lookup_insert_ne.
Qed.

Lemma record_dims_lookup {A} skip (dataset : Dataset A)
    (dims : gmap string (list string)) var :
  record_dims skip dataset dims !! var =
    match dataset_vars dataset !! var with
    | Some la => Some (drop skip (la_dims la))
    | None => dims !! var
    end.
Proof.
  unfold record_dims, dataset_vars. by apply record_dims_lookup_gen.
Qed.

(** X15: when [dims] is not given, the dims that [get_predictions_dims]
    returns for a variable are those of the variable in [constant_data] if
    it is there, else those in [observed_data], else those in
    [posterior_predictive] without the first two, and the variable has no
    entry when none of these groups holds it; a [dims] that is given is
    returned as it is. *)
Theorem get_predictions_dims_precedence {A} (idata : InferenceData A) :
  (∀ var,
     get_predictions_dims idata None !! var =
       match group_vars (constant_data idata) !! var with
       | Some la => Some (la_dims la)
       | None =>
           match group_vars (observed_data idata) !! var with
           | Some la => Some (la_dims la)
           | None =>
               match group_vars (posterior_predictive idata) !! var with
               | Some la => Some (drop 2 (la_dims la))
               | None => None
               end
           end
       end) ∧
  (∀ dims, get_predictions_dims idata (Some dims) = dims).
Proof.
  split; [|done]. intros var. unfold get_predictions_dims, group_vars.
  destruct (constant_data idata) as [cd|],
           (observed_data idata) as [od|],
           (posterior_predictive idata) as [pp|];
    rewrite ?record_dims_lookup, ?lookup_empty; simpl;
    repeat (match goal with
            | |- context [dataset_vars ?ds !! var] =>
                destruct (dataset_vars ds !! var)
            end); done.
Qed.

Example get_predictions_dims_groups :
  let la dims := mk_LabeledArray (mk_ndarray [] ([] : list Z)) dims ∅ in
  let idata :=
    mk_InferenceData None None None
      (Some (mk_Dataset [("y", la ["chain"; "draw"; "obs"]);
                         ("z", la ["chain"; "draw"; "t"])] ∅))
      (Some (mk_Dataset [("y", la ["obs"])] ∅))
      None in
  get_predictions_dims idata None !! "y" = Some ["obs"] ∧
  get_predictions_dims idata None !! "z" = Some ["t"] ∧
  get_predictions_dims idata None !! "w" = None.
Proof. split_and!; vm_compute; reflexivity. Qed.

(** X18: [get_posterior_nchains_ndraws] returns (-1, -1) exactly when the
    inference data has none of the groups [posterior], [sample_stats] and
    [posterior_predictive]; when it has one, the numbers it returns are the
    lengths of the coordinates of the first of them in that order, and
    neither is negative. *)
Theorem get_posterior_nchains_ndraws_sentinel {A}
    (coord_len : Dataset A → string → option nat) (idata : InferenceData A) :
  (get_posterior_nchains_ndraws coord_len idata = Some (-1, -1)%Z ↔
     posterior idata = None ∧ sample_stats idata = None ∧
     posterior_predictive idata = None) ∧
  (∀ dataset,
     (posterior idata = Some dataset ∨
      posterior idata = None ∧ sample_stats idata = Some dataset ∨
      posterior idata = None ∧ sample_stats idata = None ∧
      posterior_predictive idata = Some dataset) →
     get_posterior_nchains_ndraws coord_len idata =
       (n_chains ← coord_len dataset "chain";
        n_draws ← coord_len dataset "draw";
        Some (Z.of_nat n_chains, Z.of_nat n_draws)) ∧
     ∀ n_chains n_draws,
       get_posterior_nchains_ndraws coord_len idata = Some (n_chains, n_draws) →
       (0 ≤ n_chains)%Z ∧ (0 ≤ n_draws)%Z).
Proof.
  assert (Hnonneg : ∀ dataset a b,
            dataset_nchains_ndraws coord_len dataset = Some (a, b) →
            (0 ≤ a)%Z ∧ (0 ≤ b)%Z).
  { intros dataset a b. unfold dataset_nchains_ndraws.
    destruct (coord_len dataset "chain") as [c|]; [|done].
    destruct (coord_len dataset "draw") as [d|]; [|done].
    simpl. intros [= <- <-]. lia. }
  unfold get_posterior_nchains_ndraws. split.
  - destruct (posterior idata) as [ds|] eqn:Hp;
      [|destruct (sample_stats idata) as [ds|] eqn:Hs;
        [|destruct (posterior_predictive idata) as [ds|] eqn:Hpp]].
    + split; [|by intros (? & _)]. intros H%Hnonneg. lia.
    + split; [|by intros (_ & ? & _)]. intros H%Hnonneg. lia.
    + split; [|by intros (_ & _ & ?)]. intros H%Hnonneg. lia.
    + done.
  - intros dataset [Hp|[(Hp & Hs)|(Hp & Hs & Hpp)]];
      rewrite ?Hp, ?Hs, ?Hpp; (split; [done|]); intros a b; apply Hnonneg.
Qed.

Lemma foldl_insert_notin {K V W} `{Countable K} (f : W → V) (l : list (K * W))
    (m : gmap K V) k :
  k ∉ l.*1 → foldl (λ m kv, <[kv.1 := f kv.2]> m) m l !! k = m !! k.
Proof.
  revert m. induction l as [|[k' w] l IH]; intros m Hk; [done|].
  simpl in *. apply not_elem_of_cons in Hk as [Hne Hk].
  rewrite IH by done. by rewrite lookup_insert_ne.
Qed.

Lemma foldl_insert_NoDup {K V W} `{Countable K} (f : W → V) (l : list (K * W))
    (m : gmap K V) k w :
  NoDup l.*1 → (k, w) ∈ l →
  foldl (λ m kv, <[kv.1 := f kv.2]> m) m l !! k = Some (f w).
Proof.
  revert m. induction l as [|[k' w'] l IH]; intros m Hnodup Hin.
  - by apply elem_of_nil in Hin.
  - simpl in *. apply NoDup_cons in Hnodup as [Hfresh Hnodup].
    apply elem_of_cons in Hin as [[= <- <-]|Hin].
    + rewrite foldl_insert_notin by done. by rewrite lookup_insert_eq.
    + by apply IH.
Qed.

(** The names that labeling without overrides gives to the free axes, read
    back as the [dims] argument, give the same labeling. *)
Lemma numpy_to_data_array_auto_names {A} (ary : ndarray A) v c d S :
  nd_shape (two_de ary) = c :: d :: S →
  numpy_to_data_array ary v None
    (Some (Some <$> (auto_dim_name v <$> seq 0 (length S)))) =
  numpy_to_data_array ary v None None.
Proof.
  intros Hshape.
  set (autos := auto_dim_name v <$> seq 0 (length S)).
  assert (Hlen : length autos = length S)
    by (unfold autos; by rewrite length_fmap, length_seq).
  destruct (generate_dims_coords_None S v (Some ["chain"; "draw"]))
    as (coords1 & Hnone & _).
  assert (Hsame : generate_dims_coords S v (Some (Some <$> autos)) None
                    (Some ["chain"; "draw"]) =
                  generate_dims_coords S v None None (Some ["chain"; "draw"])).
  { rewrite !generate_dims_coords_eq. simpl.
    assert (Hnowarn : dims_warning S v (Some <$> autos) ["chain"; "draw"] = []).
    { unfold dims_warning, extra_dims.
      pose proof (filter_length_le (not_default ["chain"; "draw"])
                    (Some <$> autos)) as Hle.
      rewrite length_fmap in Hle.
      by rewrite (proj2 (Nat.ltb_ge _ _)) by lia. }
    rewrite Hnowarn.
    assert (Hdims : named_dims v (length S) (Some <$> autos) =
                    named_dims v (length S) []).
    { rewrite <- Hlen at 1. rewrite named_dims_all_named, named_dims_nil.
      unfold autos. by rewrite <- list_fmap_compose. }
    rewrite Hdims.
    rewrite (filled_coords_ext v (Some <$> autos) []); [done|].
    intros i Hi. rewrite dim_name_at_nil.
    apply dim_name_at_names. unfold autos.
    by rewrite list_lookup_fmap, lookup_seq_lt. }
  rewrite Hnone in Hsame.
  rewrite (numpy_to_data_array_run _ _ _ _ _ _ _ _ _ _ Hshape Hsame).
  by rewrite (numpy_to_data_array_run _ _ _ _ _ _ _ _ _ _ Hshape Hnone).
Qed.

(** The dims of an array labeled without overrides. *)
Lemma numpy_to_data_array_None_dims {A} (ary : ndarray A) v la :
  outcome (numpy_to_data_array ary v None None) = Ok la →
  ∃ c d S, nd_shape (two_de ary) = c :: d :: S ∧
           la_dims la = "chain" :: "draw" :: (auto_dim_name v <$> seq 0 (length S)).
Proof.
  intros Hla. apply numpy_to_data_array_Ok in Hla
    as (c & d & S & ws & dims1 & coords1 & names & Hshape & Hgdc & Hnames & _ & Hla).
  exists c, d, S. split; [done|].
  apply DataArray_Ok in Hla as (-> & _). simpl.
  destruct (generate_dims_coords_None S v (Some ["chain"; "draw"]))
    as (coords1' & Hnone & _).
  rewrite Hnone in Hgdc. injection Hgdc as _ <- _.
  rewrite normalize_dims_auto in Hnames.
  by apply (inj (fmap Some)) in Hnames.
Qed.

Lemma label_items_calls_ext {A} (items : list (string * ndarray A)) coords
    (dims1 dims2 : gmap string DimList) acc :
  (∀ kv, kv ∈ items → label_entry coords dims1 kv = label_entry coords dims2 kv) →
  label_items items coords dims1 acc = label_items items coords dims2 acc.
Proof.
  revert acc. induction items as [|[key values] items IH]; intros acc Hsame;
    [done|].
  simpl. pose proof (Hsame (key, values) (list_elem_of_here _ _)) as Hhead.
  unfold label_entry in Hhead. simpl in Hhead. rewrite Hhead.
  destruct (numpy_to_data_array values key coords (dims2 !! key)) as [ws [la|e]];
    [|done].
  rewrite !bind_Ok, IH; [done|].
  intros kv Hkv. apply Hsame. by apply list_elem_of_further.
Qed.

Lemma dict_to_dataset_vars {A} env (data : list (string * ndarray A))
    attrs library coords dims ds :
  NoDup data.*1 →
  outcome (dict_to_dataset env data attrs library coords dims) = Ok ds →
  ∃ las,
    Forall2 (λ kv la, outcome (label_entry coords (default ∅ dims) kv) = Ok la)
            data las ∧
    data_vars ds = zip data.*1 las.
Proof.
  intros Hnodup Hds. unfold dict_to_dataset in Hds.
  destruct (label_items data coords (default ∅ dims) []) as [ws [vars|e]] eqn:Hrun;
    [|done].
  destruct (label_items_calls _ _ _ _ _ _ Hrun) as [las Hcalls].
  exists las. split; [done|].
  rewrite (label_items_Ok data coords (default ∅ dims) [] las) in Hrun by done.
  injection Hrun as _ <-.
  rewrite bind_Ok in Hds. unfold outcome in Hds. simpl in Hds.
  by injection Hds as <-.
Qed.

(** X16: the dims that [get_predictions_dims] reads off a
    [posterior_predictive] group built by [dict_to_dataset] without
    overrides, given back to [dict_to_dataset] as its [dims] for the same
    data, give the same dataset and the same warnings. *)
Theorem get_predictions_dims_round_trip {A} env (data : list (string * ndarray A))
    attrs library ds :
  NoDup data.*1 →
  outcome (dict_to_dataset env data attrs library None None) = Ok ds →
  dict_to_dataset env data attrs library None
    (Some (as_dims_arg
             (get_predictions_dims
                (mk_InferenceData None None None (Some ds) None None) None))) =
  dict_to_dataset env data attrs library None None.
Proof.
  intros Hnodup Hds.
  destruct (dict_to_dataset_vars _ _ _ _ _ _ _ Hnodup Hds) as (las & Hcalls & Hvars).
  unfold dict_to_dataset. simpl.
  rewrite (label_items_calls_ext data None _ ∅ []); [done|].
  intros [key values] Hin. unfold label_entry. simpl.
  apply list_elem_of_lookup in Hin as [i Hi].
  destruct (Forall2_lookup_l _ _ _ _ _ Hcalls Hi) as (la & Hla & Hcall).
  unfold label_entry in Hcall. simpl in Hcall. rewrite lookup_empty in Hcall.
  destruct (numpy_to_data_array_None_dims values key la Hcall)
    as (c & d & S & Hshape & Hdims).
  assert (Hrecorded : record_dims 2 ds ∅ !! key = Some (drop 2 (la_dims la))).
  { unfold record_dims. apply (foldl_insert_NoDup (λ la, drop 2 (la_dims la))).
    - rewrite Hvars, fst_zip; [done|].
      rewrite length_fmap. by rewrite (Forall2_length _ _ _ Hcalls).
    - rewrite Hvars. apply list_elem_of_lookup. exists i.
      apply lookup_zip_Some. split; [|done].
      by rewrite list_lookup_fmap, Hi. }
  unfold as_dims_arg. rewrite lookup_fmap, Hrecorded, Hdims, lookup_empty. simpl.
  by apply (numpy_to_data_array_auto_names values key c d S).
Qed.

Lemma get_predictions_dims_round_trip_witness :
  ∃ ds,
    outcome (dict_to_dataset
               (mk_environment "2020-01-01T00:00:00" (λ _, None))
               [("x", mk_ndarray [2; 3] ([] : list Z));
                ("y", mk_ndarray [2; 3; 2] [])]
               None None None None) = Ok ds ∧
    dict_to_dataset
      (mk_environment "2020-01-01T00:00:00" (λ _, None))
      [("x", mk_ndarray [2; 3] ([] : list Z)); ("y", mk_ndarray [2; 3; 2] [])]
      None None None
      (Some (as_dims_arg
               (get_predictions_dims
                  (mk_InferenceData None None None (Some ds) None None) None))) =
    dict_to_dataset
      (mk_environment "2020-01-01T00:00:00" (λ _, None))
      [("x", mk_ndarray [2; 3] ([] : list Z)); ("y", mk_ndarray [2; 3; 2] [])]
      None None None None.
Proof.
  eexists. split; [vm_compute; reflexivity|].
  apply get_predictions_dims_round_trip.
  - simpl. apply NoDup_cons. split; [|apply NoDup_singleton].
    intros Hin%list_elem_of_singleton. discriminate.
  - vm_compute. reflexivity.
Defined.



(** ** [numpy_to_data_array]: coordinates of the caller *)



